(** * Oak file-upload middleware (mod.ts): a shallow embedding and its properties

    The development follows the structure of [mod.ts]:

    - [Js]    : the string primitives of the language that the module calls
                ([split], [replace], [padStart], [parseInt], [encodeURI], the
                boundary regular expression);
    - [Path]  : [join] and [normalize] of [@std/path], POSIX flavour;
    - [Upload]: the [FileUploader] class: [saveFileToDisk], [processFiles] and
                the middleware returned by [handler], written in a small state
                and exception monad.

    The definitions come first: the three modules, the vocabulary of the
    statements and the concrete scenarios.  The lemmas follow: the string and
    path primitives, then the properties of the class, each of which is
    stated for every input and tried on a scenario.

    Conventions.  Strings are byte strings: file names are the UTF-8 bytes of
    the JavaScript string, header values are the byte strings that the Fetch
    [Headers] class hands out.  Numbers are integers ([Z]) printed in decimal,
    which is what JavaScript does for integral values below 10^21. *)

From Stdlib Require Import ZArith Ascii String List Bool Lia.
From stdpp Require Import base gmap strings list pretty.

(* ===================================================================== *)
(** * Language primitives                                                 *)
(* ===================================================================== *)

Module Js.

(** [s.split(sep)] for a one-character separator: never the empty array. *)
Fixpoint split (sep : ascii) (s : string) : list string :=
  match s with
  | EmptyString => [EmptyString]
  | String c s' =>
      if Ascii.eqb c sep then EmptyString :: split sep s'
      else match split sep s' with
           | [] => [String c EmptyString]
           | h :: t => String c h :: t
           end
  end.

(** [arr.pop()]: the last element, [undefined] on the empty array. *)
Definition pop (l : list string) : option string := last l.

(** [arr.includes(x)] on an array of strings. *)
Definition includes (l : list string) (x : string) : bool :=
  existsb (String.eqb x) l.

(** [arr.join(sep)]; [arr.join()] uses a comma. *)
Definition join (sep : string) (l : list string) : string := String.concat sep l.

(** [!s] for a string: only the empty string is falsy. *)
Definition falsy (s : string) : bool := String.eqb s "".

(** [!v] for a value that is a string or [null]. *)
Definition falsy_opt (v : option string) : bool :=
  match v with
  | None => true
  | Some s => falsy s
  end.

Fixpoint drop (n : nat) (s : string) : string :=
  match n, s with
  | O, _ => s
  | S _, EmptyString => EmptyString
  | S n', String _ s' => drop n' s'
  end.

(** [s.startsWith(p)]. *)
Definition startsWith (p s : string) : bool := String.prefix p s.

(** [s.replace(pat, rep)] with a string pattern: the first occurrence only.
    ([rep] is inserted literally; mod.ts only passes the empty string.) *)
Fixpoint replace (pat rep s : string) : string :=
  if String.prefix pat s then rep +:+ drop (String.length pat) s
  else match s with
       | EmptyString => EmptyString
       | String c s' => String c (replace pat rep s')
       end.

(** [s.replace(/\\/g, "/")]: every character [c1] becomes [c2]. *)
Fixpoint replaceAllChar (c1 c2 : ascii) (s : string) : string :=
  match s with
  | EmptyString => EmptyString
  | String c s' =>
      String (if Ascii.eqb c c1 then c2 else c) (replaceAllChar c1 c2 s')
  end.

Fixpoint repeatChar (c : ascii) (n : nat) : string :=
  match n with
  | O => EmptyString
  | S n' => String c (repeatChar c n')
  end.

(** [s.padStart(n, fill)] for a one-character filler. *)
Definition padStart (n : nat) (fill : ascii) (s : string) : string :=
  repeatChar fill (n - String.length s) +:+ s.

(** [x.toString()] and [`${x}`] for an integral number below 1e21 in
    absolute value, where JavaScript writes out all the digits. *)
Definition toString (x : Z) : string := pretty x.

(** ** [encodeURI] *)

Definition hexDigit (n : N) : ascii :=
  ascii_of_N (if (n <? 10)%N then 48 + n else 55 + n)%N.

Definition percent (c : ascii) : string :=
  let n := N_of_ascii c in
  String "%" (String (hexDigit (n / 16)) (String (hexDigit (n mod 16)) EmptyString)).

Definition isAlnum (c : ascii) : bool :=
  let n := N_of_ascii c in
  ((48 <=? n) && (n <=? 57) || (65 <=? n) && (n <=? 90) || (97 <=? n) && (n <=? 122))%N.

Definition uriKept : list ascii :=
  list_ascii_of_string ";/?:@&=+$,-_.!~*'()#".

(** Characters that [encodeURI] leaves alone: letters, digits, the marks
    and the reserved characters, including the number sign. *)
Definition uriUnescaped (c : ascii) : bool :=
  isAlnum c || existsb (Ascii.eqb c) uriKept.

(** Every other byte of the UTF-8 encoding is written as [%XX]. *)
Fixpoint encodeURI (s : string) : string :=
  match s with
  | EmptyString => EmptyString
  | String c s' =>
      (if uriUnescaped c then String c EmptyString else percent c) +:+ encodeURI s'
  end.

(** ** [parseInt(s)] without a radix argument

    [None] stands for [NaN]. *)

Definition isWhite (c : ascii) : bool :=
  existsb (N.eqb (N_of_ascii c)) [9; 10; 11; 12; 13; 32; 160]%N.

Fixpoint trimStart (s : string) : string :=
  match s with
  | String c s' => if isWhite c then trimStart s' else s
  | EmptyString => EmptyString
  end.

Definition digitValue (c : ascii) : option Z :=
  let n := Z.of_N (N_of_ascii c) in
  if ((48 <=? n) && (n <=? 57))%Z then Some (n - 48)%Z
  else if ((97 <=? n) && (n <=? 122))%Z then Some (n - 87)%Z
  else if ((65 <=? n) && (n <=? 90))%Z then Some (n - 55)%Z
  else None.

(** The longest prefix of digits below [radix], read left to right. *)
Fixpoint digits (radix : Z) (acc : option Z) (s : string) : option Z :=
  match s with
  | EmptyString => acc
  | String c s' =>
      match digitValue c with
      | Some d =>
          if (d <? radix)%Z
          then digits radix (Some (default 0 acc * radix + d)%Z) s'
          else acc
      | None => acc
      end
  end.

Definition parseInt (s : string) : option Z :=
  let s := trimStart s in
  let '(sign, s) :=
    match s with
    | String "-" s' => ((-1)%Z, s')
    | String "+" s' => (1%Z, s')
    | _ => (1%Z, s)
    end in
  let '(radix, s) :=
    match s with
    | String "0" (String "x" s') => (16%Z, s')
    | String "0" (String "X" s') => (16%Z, s')
    | _ => (10%Z, s)
    end in
  (fun n => sign * n)%Z <$> digits radix None s.

(** [a > b] where [a] may be [NaN]: a comparison with [NaN] is false. *)
Definition gt (a : option Z) (b : Z) : bool :=
  match a with
  | Some n => (b <? n)%Z
  | None => false
  end.

(** ** The boundary regular expression

    [contentType.match(re)] where [re] is the literal text "boundary=", a
    greedy run of any characters as capture group, and the end anchor.
    The dot does not match a line terminator and [$] only matches at the end
    of the input, so a match at some position captures the whole rest of the
    string; the leftmost position is taken. *)

Definition isLineTerminator (c : ascii) : bool :=
  existsb (N.eqb (N_of_ascii c)) [10; 13]%N.

Fixpoint noLineTerminator (s : string) : bool :=
  match s with
  | EmptyString => true
  | String c s' => negb (isLineTerminator c) && noLineTerminator s'
  end.

Definition matchHere (s : string) : option string :=
  if String.prefix "boundary=" s then
    let rest := drop 9 s in
    if noLineTerminator rest then Some rest else None
  else None.

(** The first capture group of the match, [None] when there is no match. *)
Fixpoint matchBoundary (s : string) : option string :=
  match matchHere s with
  | Some rest => Some rest
  | None =>
      match s with
      | EmptyString => None
      | String _ s' => matchBoundary s'
      end
  end.

End Js.

(* ===================================================================== *)
(** * [@std/path], POSIX                                                  *)
(* ===================================================================== *)

Module Path.

(** One step of [normalizeString]: [stack] holds the segments kept so far,
    the most recent first. *)
Definition step (allowAboveRoot : bool) (stack : list string) (seg : string)
  : list string :=
  if String.eqb seg "" || String.eqb seg "." then stack
  else if String.eqb seg ".." then
    match stack with
    | top :: below =>
        if String.eqb top ".." then
          (if allowAboveRoot then ".." :: stack else stack)
        else below
    | [] => if allowAboveRoot then [".."] else []
    end
  else seg :: stack.

(** The stack that [normalizeString] ends with. *)
Definition stackOf (allowAboveRoot : bool) (path : string) : list string :=
  fold_left (step allowAboveRoot) (Js.split "/" path) [].

Definition segments (allowAboveRoot : bool) (path : string) : list string :=
  rev (stackOf allowAboveRoot path).

Definition normalizeString (allowAboveRoot : bool) (path : string) : string :=
  String.concat "/" (segments allowAboveRoot path).

Fixpoint endsWithSep (s : string) : bool :=
  match s with
  | EmptyString => false
  | String c EmptyString => Ascii.eqb c "/"
  | String _ s' => endsWithSep s'
  end.

Definition isAbsolute (path : string) : bool := String.prefix "/" path.

Definition normalize (path : string) : string :=
  let abs := isAbsolute path in
  let trailing := endsWithSep path in
  let p := normalizeString (negb abs) path in
  let p := if Js.falsy p && negb abs then "." else p in
  let p := if negb (Js.falsy p) && trailing then p +:+ "/" else p in
  if abs then "/" +:+ p else p.

(** [join(...paths)]: the non-empty arguments, separated by a slash and
    normalised; a dot when nothing is left. *)
Definition join (paths : list string) : string :=
  match List.filter (fun p => negb (Js.falsy p)) paths with
  | [] => "."
  | ps => normalize (String.concat "/" ps)
  end.

(** ** Vocabulary for statements about paths *)

(** No separator in the string. *)
Fixpoint sepFree (s : string) : bool :=
  match s with
  | EmptyString => true
  | String c s' => negb (Ascii.eqb c "/") && sepFree s'
  end.

(** A proper path segment: a name that normalisation keeps as it is. *)
Definition isSegment (s : string) : bool :=
  sepFree s && negb (String.eqb s "") && negb (String.eqb s ".")
  && negb (String.eqb s "..").

(** The segments of a path, after normalisation. *)
Definition parts (path : string) : list string :=
  segments (negb (isAbsolute path)) path.

(** The stacks that [normalizeString] can end with: proper segments on top
    of a run of double dots, which is empty for an absolute path. *)
Definition wfStack (allowAboveRoot : bool) (stack : list string) : Prop :=
  exists names k,
    stack = names ++ repeat ".." k /\
    Forall (fun s => isSegment s = true) names /\
    (allowAboveRoot = false -> k = 0).

(** The path written from its segments, without a trailing separator. *)
Definition render (abs : bool) (stack : list string) : string :=
  (if abs then "/" else "") +:+
  match stack with
  | [] => if abs then "" else "."
  | _ => String.concat "/" (rev stack)
  end.

(** A segment that can sit on the stack: no separator, not empty. *)
Definition plain (x : string) : Prop := sepFree x = true /\ x <> "".

(** A segment that normalisation drops. *)
Definition skipped (x : string) : Prop := x = "" \/ x = ".".

(** [d] is the rendering of the well-formed stack [st]. *)
Definition Canon (abs : bool) (st : list string) (d : string) : Prop :=
  wfStack (negb abs) st /\ d = render abs st.

(** The directory under which [saveFileToDisk] resolves [path]. *)
Definition baseDir (useCurrentDir : bool) (cwd path : string) : string :=
  if useCurrentDir then join [cwd; normalize path] else path.

End Path.

(* ===================================================================== *)
(** * The [FileUploader] class                                            *)
(* ===================================================================== *)

Module Upload.

(** ** Data *)

(** A thrown [Error], by its message. *)
Inductive JsError := Error (message : string).

Inductive Completion (A : Type) :=
| Normal (a : A)
| Throw (e : JsError).
Arguments Normal {A} a.
Arguments Throw {A} e.

(** What the module reads of a DOM [File]. *)
Record File := mkFile {
  file_name : string;
  file_size : Z;
  file_type : string;
  file_bytes : list Byte.byte;
}.

Record ProcessedFile := mkProcessedFile {
  filename : string;
  size : Z;
  type : string;
  contents : option (list Byte.byte);
  uri : string;
  url : string;
}.

(** An element of an array-valued form entry. *)
Inductive FormItem :=
| ItemFile (f : File)
| ItemOther.

(** The value of one form entry, as the loop of the middleware tells them
    apart: a [File], an array, anything else. *)
Inductive FormValue :=
| ValFile (f : File)
| ValArray (items : list FormItem)
| ValOther.

Record Request := mkRequest {
  hasBody : bool;
  contentLength : option string;      (* headers.get("content-length") *)
  contentType : option string;        (* headers.get("content-type") *)
  formData : Completion (list (string * FormValue));
}.

(** The getters of [Date] that [saveFileToDisk] reads; [getMonth] counts
    from zero. *)
Record DateTime := mkDateTime {
  getFullYear : Z;
  getMonth : Z;
  getDate : Z;
  getHours : Z;
  getMinutes : Z;
  getSeconds : Z;
}.

(** The platform the module runs on: the working directory, the values that
    successive calls of [crypto.randomUUID()] and [new Date()] return, and
    the paths on which a file-system call fails. *)
Record Env := mkEnv {
  cwd : string;
  uuids : nat -> string;
  clock : nat -> DateTime;
  fsFault : string -> bool;
}.

Inductive Event :=
| EvEnsureDir (path : string)
| EvArrayBuffer (f : File)
| EvWriteFile (path : string) (data : list Byte.byte)
| EvOnError (e : JsError)
| EvNext.

(** The mutable state: the platform counters and the trace of effects, the
    two private fields of the [FileUploader] instance that the middleware
    mutates, and [ctx.state.uploadedFiles] of the request being handled.
    The latter is a reference to the [result] object of the instance, never
    a copy of it. *)
Record State := mkState {
  uuidsUsed : nat;
  clockReads : nat;
  trace : list Event;
  validationErrors : list string;
  result : gmap string ProcessedFile;
  uploadedFiles : bool;
}.

(** A callback of the host ([onError], [next]) is known by its outcome: it
    returns, or it throws (or its promise rejects). *)
Definition Outcome := option JsError.

Record UploadOptions := mkOptions {
  extensions : list string;
  maxSizeBytes : Z;
  maxFileSizeBytes : Z;
  saveFile : bool;
  readFile : bool;
  useCurrentDir : bool;
  useDateTimeSubDir : bool;
  onError : Request -> JsError -> State -> Outcome;
}.

Definition MAX_SAFE_INTEGER : Z := 9007199254740991.

Definition defaultOptions : UploadOptions := {|
  extensions := [];
  maxSizeBytes := MAX_SAFE_INTEGER;
  maxFileSizeBytes := MAX_SAFE_INTEGER;
  saveFile := true;
  readFile := false;
  useCurrentDir := true;
  useDateTimeSubDir := true;
  onError := fun _ _ _ => None;      (* console.log *)
|}.

(** The immutable fields of an instance. *)
Record FileUploader := mkFileUploader {
  path : string;
  options : UploadOptions;
}.

(** ** The monad of the middleware: state and exceptions *)

Definition M (A : Type) : Type := State -> Completion A * State.

Definition ret {A} (a : A) : M A := fun s => (Normal a, s).

Definition bind {A B} (m : M A) (k : A -> M B) : M B :=
  fun s =>
    match m s with
    | (Normal a, s') => k a s'
    | (Throw e, s') => (Throw e, s')
    end.

Definition throw {A} (e : JsError) : M A := fun s => (Throw e, s).

Definition tryCatch {A} (body : M A) (handler : JsError -> M A) : M A :=
  fun s =>
    match body s with
    | (Normal a, s') => (Normal a, s')
    | (Throw e, s') => handler e s'
    end.

Declare Scope upload_scope.
Delimit Scope upload_scope with upload.
Notation "x <- m ;; k" := (bind m (fun x => k))
  (at level 100, m at next level, right associativity) : upload_scope.
Notation "m ;; k" := (bind m (fun _ => k))
  (at level 100, right associativity) : upload_scope.
Local Open Scope upload_scope.

Definition log (e : Event) : M unit :=
  fun s => (Normal tt,
            mkState (uuidsUsed s) (clockReads s) (trace s ++ [e])
                    (validationErrors s) (result s) (uploadedFiles s)).

(** [this.validationErrors.push(msg)] *)
Definition pushError (msg : string) : M unit :=
  fun s => (Normal tt,
            mkState (uuidsUsed s) (clockReads s) (trace s)
                    (validationErrors s ++ [msg]) (result s) (uploadedFiles s)).

(** [this.result.data[key] = pf] *)
Definition setResult (key : string) (pf : ProcessedFile) : M unit :=
  fun s => (Normal tt,
            mkState (uuidsUsed s) (clockReads s) (trace s)
                    (validationErrors s) (<[key := pf]> (result s))
                    (uploadedFiles s)).

(** [ctx.state.uploadedFiles = this.result] *)
Definition attachResult : M unit :=
  fun s => (Normal tt,
            mkState (uuidsUsed s) (clockReads s) (trace s)
                    (validationErrors s) (result s) true).

Definition getValidationErrors : M (list string) :=
  fun s => (Normal (validationErrors s), s).

(** Invoking a callback of the host leaves a mark in the trace. *)
Definition call (e : Event) (f : State -> Outcome) : M unit :=
  log e ;;
  fun s => match f s with
           | None => (Normal tt, s)
           | Some err => (Throw err, s)
           end.

Section Instance.

Variable env : Env.
Variable this : FileUploader.

Definition randomUUID : M string :=
  fun s => (Normal (uuids env (uuidsUsed s)),
            mkState (S (uuidsUsed s)) (clockReads s) (trace s)
                    (validationErrors s) (result s) (uploadedFiles s)).

Definition newDate : M DateTime :=
  fun s => (Normal (clock env (clockReads s)),
            mkState (uuidsUsed s) (S (clockReads s)) (trace s)
                    (validationErrors s) (result s) (uploadedFiles s)).

Definition fsError (p : string) : JsError := Error ("file system: " +:+ p).

Definition ensureDir (p : string) : M unit :=
  if fsFault env p then throw (fsError p) else log (EvEnsureDir p).

Definition writeFile (p : string) (data : list Byte.byte) : M unit :=
  if fsFault env p then throw (fsError p) else log (EvWriteFile p data).

Definition arrayBuffer (f : File) : M (list Byte.byte) :=
  log (EvArrayBuffer f) ;; ret (file_bytes f).

Definition pad2 (n : Z) : string := Js.padStart 2 "0" (Js.toString n).

(** The date-and-time directory chain of [saveFileToDisk]. *)
Definition subDirTree (now : DateTime) (uuid : string) : string :=
  Path.join [ Js.toString (getFullYear now);
              pad2 (getMonth now + 1);
              pad2 (getDate now);
              pad2 (getHours now);
              pad2 (getMinutes now);
              pad2 (getSeconds now);
              uuid ].

Definition saveFileToDisk (file : File) : M string :=
  uploadPath <-
    (if useDateTimeSubDir (options this) then
       now <- newDate ;;
       uuid <- randomUUID ;;
       ret (Path.join [path this; subDirTree now uuid])
     else ret (path this)) ;;
  let fullPath :=
    if useCurrentDir (options this) then Path.join [cwd env; uploadPath]
    else uploadPath in
  ensureDir fullPath ;;
  let filePath := Path.join [fullPath; file_name file] in
  contents <- arrayBuffer file ;;
  writeFile filePath contents ;;
  ret filePath.

Definition emptyProcessedFile : ProcessedFile :=
  mkProcessedFile "" 0 "" None "" "".

Definition extensionOf (filename : string) : string :=
  default "" (Js.pop (Js.split "." filename)).

(** The condition of the first [if] of the loop body. *)
Definition extensionRejected (file : File) : bool :=
  let extension := extensionOf (file_name file) in
  Js.falsy extension && negb (Js.includes (extensions (options this)) extension).

(** The condition of the second [if] of the loop body. *)
Definition sizeRejected (file : File) : bool :=
  (maxFileSizeBytes (options this) <? file_size file)%Z.

Definition extensionMessage (file : File) : string :=
  "File extension " +:+ extensionOf (file_name file) +:+ " in "
  +:+ file_name file +:+ " is not allowed. Allowed extentions: "
  +:+ Js.join "," (extensions (options this)) +:+ ".".

Definition sizeMessage (file : File) : string :=
  "File size exceeds limit. File: " +:+ file_name file +:+ ", Size: "
  +:+ Js.toString (file_size file) +:+ " bytes, Limit: "
  +:+ Js.toString (maxFileSizeBytes (options this)) +:+ " bytes. ".

(** [url] as computed from the path that [saveFileToDisk] returned. *)
Definition urlOf (savedFilePath : string) : string :=
  let u := Js.replaceAllChar "\" "/" (Js.replace (cwd env) "" savedFilePath) in
  let u := if negb (Js.startsWith "/" u) then "/" +:+ u else u in
  Js.encodeURI u.

Definition tempUploadsDir : string := Path.join [cwd env; "temp_uploads"].

(** The body of the [for] loop of [processFiles], on the record under
    construction. *)
Definition processFile (pf : ProcessedFile) (file : File) : M ProcessedFile :=
  let pf := mkProcessedFile (file_name file) (file_size file) (file_type file)
                            (contents pf) (uri pf) (url pf) in
  if extensionRejected file then
    pushError (extensionMessage file) ;; ret pf
  else if sizeRejected file then
    pushError (sizeMessage file) ;; ret pf
  else
    pf <- (if readFile (options this) then
             data <- arrayBuffer file ;;
             ret (mkProcessedFile (filename pf) (size pf) (type pf)
                                  (Some data) (uri pf) (url pf))
           else ret pf) ;;
    if saveFile (options this) then
      savedFilePath <- saveFileToDisk file ;;
      ret (mkProcessedFile (filename pf) (size pf) (type pf) (contents pf)
                           savedFilePath (urlOf savedFilePath))
    else
      uuid <- randomUUID ;;
      let tempFilePath :=
        Path.join [tempUploadsDir; uuid +:+ "_" +:+ file_name file] in
      tempContents <- arrayBuffer file ;;
      writeFile tempFilePath tempContents ;;
      ret (mkProcessedFile (filename pf) (size pf) (type pf) (contents pf)
                           tempFilePath "").

Fixpoint processLoop (pf : ProcessedFile) (files : list File) : M ProcessedFile :=
  match files with
  | [] => ret pf
  | file :: rest => pf' <- processFile pf file ;; processLoop pf' rest
  end.

Definition processFiles (files : list File) : M ProcessedFile :=
  processLoop emptyProcessedFile files.

(** [value.filter((f) => f instanceof File)] *)
Definition filesOf (items : list FormItem) : list File :=
  omap (fun i => match i with ItemFile f => Some f | ItemOther => None end) items.

(** The body of the loop over the form entries. *)
Definition processEntry (entry : string * FormValue) : M unit :=
  let '(key, value) := entry in
  match value with
  | ValFile f => pf <- processFiles [f] ;; setResult key pf
  | ValArray items =>
      let files := filesOf items in
      if (0 <? length files)%nat then
        pf <- processFiles files ;; setResult key pf
      else ret tt
  | ValOther => ret tt
  end.

Fixpoint processEntries (entries : list (string * FormValue)) : M unit :=
  match entries with
  | [] => ret tt
  | entry :: rest => processEntry entry ;; processEntries rest
  end.

Definition totalSizeMessage (contentLength : string) : string :=
  "Total upload size exceeded. Uploaded: " +:+ contentLength
  +:+ ". Allowed maximum: " +:+ Js.toString (maxSizeBytes (options this)).

Definition invalidFormMessage : string :=
  "Invalid form data. The request body should be encoded as 'multipart/form-data'.".

Definition aggregatedMessage (errors : list string) : string :=
  "Unprocessable Entity: " +:+ Js.join " " errors.

(** The precondition checks at the head of the [try] block: the error they
    throw, if any.  Numbers are integers; the comparison with the limit is
    that of the code as long as [maxSizeBytes] is in the safe-integer
    range. *)
Definition preconditionError (request : Request) : option JsError :=
  if negb (hasBody request) then Some (Error "Request is missing a body")
  else if Js.falsy_opt (contentLength request) then Some (Error "Content length is 0")
  else if Js.falsy_opt (contentType request) then Some (Error "Content type is missing")
  else if Js.gt (Js.parseInt (default "" (contentLength request)))
                (maxSizeBytes (options this))
       then Some (Error (totalSizeMessage (default "" (contentLength request))))
  else if Js.falsy_opt (Js.matchBoundary (default "" (contentType request)))
       then Some (Error invalidFormMessage)
  else None.

(** The [try] block of the middleware. *)
Definition tryBlock (request : Request) (next : State -> Outcome) : M unit :=
  match preconditionError request with
  | Some e => throw e
  | None =>
      entries <- (fun s => (formData request, s)) ;;
      processEntries entries ;;
      errors <- getValidationErrors ;;
      if (0 <? length errors)%nat then throw (Error (aggregatedMessage errors))
      else
        attachResult ;;
        call EvNext next
  end.

Definition middleware (request : Request) (next : State -> Outcome) : M unit :=
  tryCatch (tryBlock request next)
           (fun error => call (EvOnError error) (onError (options this) request error)) ;;
  call EvNext next.

(** [handler()] creates the temporary directory and returns the middleware. *)
Definition handler : M (Request -> (State -> Outcome) -> M unit) :=
  ensureDir tempUploadsDir ;; ret middleware.

End Instance.

(** A fresh instance has no errors and an empty result; a fresh context has
    nothing attached. *)
Definition initialState : State := mkState 0 0 [] [] ∅ false.

(** The context of the next request on the same instance. *)
Definition newContext (s : State) : State :=
  mkState (uuidsUsed s) (clockReads s) (trace s) (validationErrors s) (result s) false.

End Upload.

Import Upload.
Local Open Scope upload_scope.

(* ===================================================================== *)
(** * Vocabulary of the statements                                        *)
(* ===================================================================== *)

(** ** Traces and states *)

Definition fileEvent (e : Event) : bool :=
  match e with
  | EvEnsureDir _ | EvArrayBuffer _ | EvWriteFile _ _ => true
  | EvOnError _ | EvNext => false
  end.

Definition isNext (e : Event) : bool :=
  match e with
  | EvNext => true
  | _ => false
  end.

(** The number of times the downstream continuation has been invoked. *)
Definition nextCalls (s : State) : nat := length (List.filter isNext (trace s)).

(** The state with one more event in its trace. *)
Definition logged (e : Event) (s : State) : State :=
  mkState (uuidsUsed s) (clockReads s) (trace s ++ [e])
          (validationErrors s) (result s) (uploadedFiles s).

(** [grows s s']: from [s] to [s'] only file-system events were added to the
    trace and only new messages to the error list; the context is as it was. *)
Definition grows (s s' : State) : Prop :=
  (exists evs, trace s' = trace s ++ evs /\ forallb fileEvent evs = true) /\
  (exists errs, validationErrors s' = validationErrors s ++ errs) /\
  uploadedFiles s' = uploadedFiles s.

Definition growing {A} (m : M A) : Prop :=
  forall s r s', m s = (r, s') -> grows s s'.


(** [m] leaves the result mapping alone. *)
Definition keepsResult {A} (m : M A) : Prop :=
  forall s r s', m s = (r, s') -> result s' = result s.

(** ** The middleware *)

(** The [catch] block on error [e] followed by the unconditional [next()]
    that ends the middleware, from state [s]. *)
Definition catchThenNext (this : FileUploader) (request : Request)
    (next : State -> Outcome) (e : JsError) (s : State) : Completion unit * State :=
  match onError (options this) request e (logged (EvOnError e) s) with
  | Some err => (Throw err, logged (EvOnError e) s)
  | None => call EvNext next (logged (EvOnError e) s)
  end.

(** The state after [ctx.state.uploadedFiles = this.result]. *)
Definition attached (s : State) : State :=
  mkState (uuidsUsed s) (clockReads s) (trace s) (validationErrors s) (result s) true.


(** ** Files and where they are stored *)

(** Neither check of the loop body rejects the file. *)
Definition accepted (this : FileUploader) (file : File) : Prop :=
  extensionRejected this file = false /\ sizeRejected this file = false.

(** The directory chain for a given date and identifier, as a list. *)
Definition dateChain (now : DateTime) (uuid : string) : list string :=
  [ Js.toString (getFullYear now);
    pad2 (getMonth now + 1);
    pad2 (getDate now);
    pad2 (getHours now);
    pad2 (getMinutes now);
    pad2 (getSeconds now);
    uuid ].

(** Where [saveFileToDisk] writes a file, given the date and the identifier
    it draws. *)
Definition savedPath (env : Env) (this : FileUploader)
    (now : DateTime) (uuid : string) (name : string) : string :=
  let uploadPath :=
    if useDateTimeSubDir (options this)
    then Path.join [path this; subDirTree now uuid]
    else path this in
  let fullPath :=
    if useCurrentDir (options this) then Path.join [cwd env; uploadPath]
    else uploadPath in
  Path.join [fullPath; name].

(** The files that an entry value carries. *)
Definition filesIn (value : FormValue) : list File :=
  match value with
  | ValFile f => [f]
  | ValArray items => filesOf items
  | ValOther => []
  end.

(** The getters of a real [Date] stay in these ranges. *)
Definition validDate (now : DateTime) : Prop :=
  (0 <= getMonth now <= 11)%Z /\ (1 <= getDate now <= 31)%Z /\
  (0 <= getHours now <= 23)%Z /\ (0 <= getMinutes now <= 59)%Z /\
  (0 <= getSeconds now <= 59)%Z.

Fixpoint noBackslash (s : string) : bool :=
  match s with
  | EmptyString => true
  | String c s' => negb (Ascii.eqb c "\") && noBackslash s'
  end.

(** The URL as the specification words it: the path without the working
    directory in front, with a leading slash, URL-encoded. *)
Definition stripPrefix (pre s : string) : string :=
  if String.prefix pre s then Js.drop (String.length pre) s else s.

Definition ensureLeadingSlash (u : string) : string :=
  if Js.startsWith "/" u then u else "/" +:+ u.

Definition urlSpec (cwd p : string) : string :=
  Js.encodeURI (ensureLeadingSlash (stripPrefix cwd p)).

(** ** Decimal strings *)

Definition numChar (c : ascii) : bool :=
  let n := N_of_ascii c in ((48 <=? n) && (n <=? 57) || (n =? 45))%N.

Fixpoint numStr (s : string) : bool :=
  match s with
  | EmptyString => true
  | String c s' => numChar c && numStr s'
  end.


(* ===================================================================== *)
(** * Concrete scenarios                                                  *)
(* ===================================================================== *)

Module Scenario.

Definition env : Env := {|
  cwd := "/app";
  uuids := fun n => "id" +:+ pretty n;
  clock := fun _ => mkDateTime 2025 0 26 18 3 8;
  fsFault := fun _ => false;
|}.

Definition returns : State -> Outcome := fun _ => None.

(** [{extensions: ["jpg"], maxFileSizeBytes: 1000}], the configuration of the
    scenarios of the specification. *)
Definition jpgOptions : UploadOptions := {|
  extensions := ["jpg"];
  maxSizeBytes := MAX_SAFE_INTEGER;
  maxFileSizeBytes := 1000;
  saveFile := true;
  readFile := false;
  useCurrentDir := true;
  useDateTimeSubDir := true;
  onError := fun _ _ _ => None;
|}.

Definition jpgOnly : FileUploader := mkFileUploader "uploads" jpgOptions.

(** The same without an allow-list. *)
Definition anyExtension : FileUploader :=
  mkFileUploader "uploads"
    (mkOptions [] MAX_SAFE_INTEGER 1000 true false true true (fun _ _ _ => None)).

Definition a_jpg : File := mkFile "a.jpg" 500 "image/jpeg" [].
Definition a_png : File := mkFile "a.png" 500 "image/png" [].
Definition big_jpg : File := mkFile "a.jpg" 5000 "image/jpeg" [].
Definition readme : File := mkFile "README" 500 "text/plain" [].
Definition notes_dot : File := mkFile "notes." 500 "text/plain" [].

(** A well-formed multipart request carrying [entries]. *)
Definition request (entries : list (string * FormValue)) : Request := {|
  hasBody := true;
  contentLength := Some "600";
  contentType := Some "multipart/form-data; boundary=----x";
  formData := Normal entries;
|}.

(** A request without a content-length header. *)
Definition noContentLength : Request :=
  mkRequest true None (Some "multipart/form-data; boundary=----x")
            (Normal [("photo", ValFile Scenario.a_jpg)]).

(** An instance that keeps nothing: [saveFile] is off. *)
Definition temporaryOnly : FileUploader :=
  mkFileUploader "uploads"
    (mkOptions [] MAX_SAFE_INTEGER 1000 false false true true (fun _ _ _ => None)).

(** An instance whose error callback throws. *)
Definition throwingOnError : FileUploader :=
  mkFileUploader "uploads"
    (mkOptions ["jpg"] MAX_SAFE_INTEGER 1000 true false true true
               (fun _ _ _ => Some (Error "handler failed"))).

End Scenario.

(** ** Counting the calls of the host callbacks and the writes *)

Definition isOnError (e : Event) : bool :=
  match e with
  | EvOnError _ => true
  | _ => false
  end.

(** The number of times [onError] has been invoked. *)
Definition errorCalls (s : State) : nat := length (List.filter isOnError (trace s)).

Definition isWrite (e : Event) : bool :=
  match e with
  | EvWriteFile _ _ => true
  | _ => false
  end.

(** The number of files written so far. *)
Definition writeCount (s : State) : nat := length (List.filter isWrite (trace s)).

(** Both checks of the loop body let the file through. *)
Definition acceptedb (this : FileUploader) (file : File) : bool :=
  negb (extensionRejected this file) && negb (sizeRejected this file).

(** The message that the loop body pushes for a file, if any: the extension
    check comes first and ends the iteration. *)
Definition rejectionMessage (this : FileUploader) (file : File) : option string :=
  if extensionRejected this file then Some (extensionMessage this file)
  else if sizeRejected this file then Some (sizeMessage this file)
  else None.

(** ** Characters of a string *)

(** Every character of the string satisfies [p]. *)
Fixpoint allChars (p : ascii -> bool) (s : string) : bool :=
  match s with
  | EmptyString => true
  | String c s' => p c && allChars p s'
  end.

(** The character [c] does not occur in the string. *)
Definition charFree (c : ascii) (s : string) : bool :=
  allChars (fun d => negb (Ascii.eqb d c)) s.

(** The characters that [encodeURI] can put out: those it leaves alone and
    the percent sign of an escape (whose two digits are among the former). *)
Definition urlChar (c : ascii) : bool := Js.uriUnescaped c || Ascii.eqb c "%".

(** Decimal digits. *)
Definition isDigit (c : ascii) : bool :=
  let n := N_of_ascii c in ((48 <=? n) && (n <=? 57))%N.

(** ** The constructor

    [new FileUploader(path, options)] with [options] a partial record: a
    field is [None] when the key is absent from the object literal, and the
    spread then keeps the default; a key that is present replaces it. *)
Record PartialOptions := mkPartial {
  p_extensions : option (list string);
  p_maxSizeBytes : option Z;
  p_maxFileSizeBytes : option Z;
  p_saveFile : option bool;
  p_readFile : option bool;
  p_useCurrentDir : option bool;
  p_useDateTimeSubDir : option bool;
  p_onError : option (Request -> JsError -> State -> Outcome);
}.

(** The object literal [{}]. *)
Definition noOptions : PartialOptions :=
  mkPartial None None None None None None None None.

Definition constructor (path : string) (o : PartialOptions) : FileUploader :=
  mkFileUploader path {|
    extensions := default (extensions defaultOptions) (p_extensions o);
    maxSizeBytes := default (maxSizeBytes defaultOptions) (p_maxSizeBytes o);
    maxFileSizeBytes := default (maxFileSizeBytes defaultOptions) (p_maxFileSizeBytes o);
    saveFile := default (saveFile defaultOptions) (p_saveFile o);
    readFile := default (readFile defaultOptions) (p_readFile o);
    useCurrentDir := default (useCurrentDir defaultOptions) (p_useCurrentDir o);
    useDateTimeSubDir := default (useDateTimeSubDir defaultOptions) (p_useDateTimeSubDir o);
    onError := default (onError defaultOptions) (p_onError o);
  |}.

(** ** The checks on the request *)

(** The content type holds the text [boundary=] followed, up to its end, by
    at least one character and no line break. *)
Definition boundaryText (ct : string) : Prop :=
  exists pre rest,
    ct = pre +:+ "boundary=" +:+ rest /\ rest <> "" /\
    Js.noLineTerminator rest = true.

(** A declared content length: one or more decimal digits, and the number
    they write. *)
Definition isDecimal (cl : string) : bool :=
  negb (String.eqb cl "") && allChars isDigit cl.

Fixpoint decimalFrom (acc : Z) (s : string) : Z :=
  match s with
  | EmptyString => acc
  | String c s' => decimalFrom (10 * acc + (Z.of_N (N_of_ascii c) - 48)) s'
  end.

Definition decimalValue (cl : string) : Z := decimalFrom 0 cl.

(** The precondition failures: no body; no content-length header, or an
    empty one; no content-type header, or an empty one; a content type
    without the boundary text; a declared content length above
    [maxSizeBytes].  The limit is taken in the safe-integer range, where the
    comparison of the numbers of the code is the comparison of the
    integers. *)
Definition preconditionFails (this : FileUploader) (request : Request) : Prop :=
  hasBody request = false
  \/ contentLength request = None \/ contentLength request = Some ""
  \/ contentType request = None \/ contentType request = Some ""
  \/ (exists ct, contentType request = Some ct /\ ~ boundaryText ct)
  \/ (exists cl, contentLength request = Some cl /\ isDecimal cl = true /\
                 (Z.abs (maxSizeBytes (options this)) <= MAX_SAFE_INTEGER)%Z /\
                 (maxSizeBytes (options this) < decimalValue cl)%Z).

(** ** The parameters of a media type

    What it means for a content type to have a [boundary] parameter: the
    pieces after the first semicolon that hold an equals sign are the
    parameters; the name of one is the text before its first equals sign,
    without leading white space and in lower case. *)

Definition lowerAscii (c : ascii) : ascii :=
  let n := N_of_ascii c in
  if ((65 <=? n) && (n <=? 90))%N then ascii_of_N (n + 32) else c.

Fixpoint lowerCase (s : string) : string :=
  match s with
  | EmptyString => EmptyString
  | String c s' => String (lowerAscii c) (lowerCase s')
  end.

Definition parameterOf (piece : string) : option (string * string) :=
  match Js.split "=" (Js.trimStart piece) with
  | name :: v :: more => Some (lowerCase name, String.concat "=" (v :: more))
  | _ => None
  end.

Definition parameters (ct : string) : list (string * string) :=
  omap parameterOf (tail (Js.split ";" ct)).

Definition boundaryParameter (ct : string) : option string :=
  snd <$> List.find (fun p => String.eqb (fst p) "boundary") (parameters ct).

(** ** Further scenarios *)

Module Cases.

(** An instance that stores files directly under [uploads]:
    [{useDateTimeSubDir: false, maxFileSizeBytes: 1000}]. *)
Definition undated : FileUploader :=
  mkFileUploader "uploads"
    (mkOptions [] MAX_SAFE_INTEGER 1000 true false true false (fun _ _ _ => None)).

(** A request whose body cannot be read as form data. *)
Definition brokenBody : Request :=
  mkRequest true (Some "600") (Some "multipart/form-data; boundary=----x")
            (Throw (Error "body is not form data")).

(** A downstream middleware that throws. *)
Definition throwingNext : State -> Outcome :=
  fun _ => Some (Error "downstream failed").

(** An instance whose error list already holds a message. *)
Definition withOldError : State :=
  mkState 0 0 [] ["File size exceeds limit. File: x.jpg, Size: 5000 bytes, Limit: 1000 bytes. "]
          ∅ false.

Definition photo : list (string * FormValue) := [("photo", ValFile Scenario.a_jpg)].

Definition textOnly : list (string * FormValue) :=
  [("title", ValOther); ("tags", ValArray [])].

(** A URL-encoded form: its content type has no boundary parameter, and its
    fields are strings. *)
Definition urlencoded : Request :=
  mkRequest true (Some "11")
            (Some "application/x-www-form-urlencoded; xboundary=1")
            (Normal [("title", ValOther)]).

(** The continuation of oak: the second invocation within one middleware
    throws. *)
Definition oakNext : State -> Outcome :=
  fun s => if (nextCalls s <=? 1)%nat then None
           else Some (Error "next() called multiple times").

(** The field [docs] sent twice, each time with one file; the second file is
    too large. *)
Definition first_doc : File := mkFile "a.jpg" 500 "image/jpeg" [Byte.x61].
Definition second_doc : File := mkFile "b.jpg" 5000 "image/png" [Byte.x62].

Definition repeatedField : list (string * FormValue) :=
  [("docs", ValFile first_doc); ("docs", ValFile second_doc); ("note", ValOther)].

End Cases.

(* ===================================================================== *)
(** * The primitives at work                                              *)
(* ===================================================================== *)

Example split_ext : Js.split "." "a.tar.gz" = ["a"; "tar"; "gz"].
Proof. reflexivity. Qed.

Example join_normalises :
  Path.join ["/app/temp_uploads"; "u1_/../x"] = "/app/temp_uploads/x".
Proof. reflexivity. Qed.


(* ===================================================================== *)
(** * The extension check                                                 *)
(* ===================================================================== *)

Lemma falsy_spec (s : string) : Js.falsy s = true <-> s = "".
Proof. unfold Js.falsy. apply String.eqb_eq. Qed.

(** The check only ever fires on an empty extension. *)
Lemma extensionRejected_spec (this : FileUploader) (file : File) :
  extensionRejected this file = true <->
  extensionOf (file_name file) = "" /\
  Js.includes (extensions (options this)) "" = false.
Proof.
  unfold extensionRejected. rewrite andb_true_iff, negb_true_iff, falsy_spec.
  split; intros [H1 H2]; split; auto; rewrite H1 in *; auto.
Qed.

Lemma extension_nonempty_accepted (this : FileUploader) (file : File) :
  extensionOf (file_name file) <> "" -> extensionRejected this file = false.
Proof.
  intros Hne. destruct (extensionRejected this file) eqn:E; auto.
  apply extensionRejected_spec in E. destruct E; contradiction.
Qed.

(** C1 (the code departs from the claim).  With the allow-list ["jpg"], the
    file a.png, whose extension "png" is not in the list, is processed like
    an allowed file: no validation error is recorded, the file is written
    under the upload directory, its entry is attached to the context, the
    [onError] callback is never invoked and the request succeeds. *)
Lemma C1_png_passes_jpg_list :
  let r := middleware Scenario.env Scenario.jpgOnly
             (Scenario.request [("photo", ValFile Scenario.a_png)])
             Scenario.returns initialState in
  Js.includes (extensions (options Scenario.jpgOnly))
              (extensionOf (file_name Scenario.a_png)) = false /\
  fst r = Normal tt /\
  validationErrors (snd r) = [] /\
  trace (snd r) =
    [ EvEnsureDir "/app/uploads/2025/01/26/18/03/08/id0";
      EvArrayBuffer Scenario.a_png;
      EvWriteFile "/app/uploads/2025/01/26/18/03/08/id0/a.png" [];
      EvNext; EvNext ] /\
  uploadedFiles (snd r) = true /\
  result (snd r) !! "photo" =
    Some (mkProcessedFile "a.png" 500 "image/png" None
            "/app/uploads/2025/01/26/18/03/08/id0/a.png"
            "/uploads/2025/01/26/18/03/08/id0/a.png").
Proof. vm_compute. repeat split; reflexivity. Qed.

(** C3 (the code departs from the claim).  The extension the code computes
    for a name without a dot is the whole name, not the empty string, so
    README passes the check under the allow-list ["jpg"] and is stored;
    and a name whose extension really is empty, "notes.", is rejected even
    when no allow-list is configured. *)
Lemma C3_no_extension_cases :
  let r1 := processFiles Scenario.env Scenario.jpgOnly [Scenario.readme] initialState in
  let r2 := processFiles Scenario.env Scenario.anyExtension [Scenario.notes_dot] initialState in
  extensionOf (file_name Scenario.readme) = "README" /\
  extensionRejected Scenario.jpgOnly Scenario.readme = false /\
  validationErrors (snd r1) = [] /\
  trace (snd r1) =
    [ EvEnsureDir "/app/uploads/2025/01/26/18/03/08/id0";
      EvArrayBuffer Scenario.readme;
      EvWriteFile "/app/uploads/2025/01/26/18/03/08/id0/README" [] ] /\
  extensionOf (file_name Scenario.notes_dot) = "" /\
  extensions (options Scenario.anyExtension) = [] /\
  validationErrors (snd r2) =
    [ "File extension  in notes. is not allowed. Allowed extentions: ." ] /\
  trace (snd r2) = [].
Proof. vm_compute. repeat split; reflexivity. Qed.

(** C2 (the code departs from the claim).  Two successive requests on one
    instance.  The first carries an oversized file and fails.  The second
    carries a single valid file; handled by a fresh instance it succeeds,
    but on the same instance the error of the first request is still in the
    list, so the aggregated error is raised again, [onError] is invoked and
    nothing is attached.  Likewise the result mapping of the second request
    still holds the entry written during the first. *)
Lemma C2_second_request_sees_first :
  let first := Scenario.request [("doc", ValFile Scenario.big_jpg)] in
  let second := Scenario.request [("photo", ValFile Scenario.a_jpg)] in
  let run := middleware Scenario.env Scenario.jpgOnly in
  let s1 := snd (run first Scenario.returns initialState) in
  let shared := run second Scenario.returns (newContext s1) in
  let fresh := run second Scenario.returns initialState in
  (fst fresh = Normal tt /\ uploadedFiles (snd fresh) = true /\
   trace (snd fresh) =
     [ EvEnsureDir "/app/uploads/2025/01/26/18/03/08/id0";
       EvArrayBuffer Scenario.a_jpg;
       EvWriteFile "/app/uploads/2025/01/26/18/03/08/id0/a.jpg" [];
       EvNext; EvNext ] /\
   dom (result (snd fresh)) = {["photo"]}) /\
  (uploadedFiles (snd shared) = false /\
   drop (length (trace s1)) (trace (snd shared)) =
     [ EvEnsureDir "/app/uploads/2025/01/26/18/03/08/id0";
       EvArrayBuffer Scenario.a_jpg;
       EvWriteFile "/app/uploads/2025/01/26/18/03/08/id0/a.jpg" [];
       EvOnError (Error "Unprocessable Entity: File size exceeds limit. File: a.jpg, Size: 5000 bytes, Limit: 1000 bytes. ");
       EvNext ] /\
   dom (result (snd shared)) = {["doc"; "photo"]}).
Proof.
  cbv zeta. repeat split; vm_compute; reflexivity.
Qed.

(* ===================================================================== *)
(** * What file processing can and cannot do to the state                 *)
(* ===================================================================== *)

Create HintDb growing.

Lemma grows_refl (s : State) : grows s s.
Proof.
  repeat split.
  - exists []. rewrite app_nil_r. auto.
  - exists []. rewrite app_nil_r. auto.
Qed.

Lemma grows_trans (s1 s2 s3 : State) : grows s1 s2 -> grows s2 s3 -> grows s1 s3.
Proof.
  intros ([e1 [T1 F1]] & [v1 V1] & U1) ([e2 [T2 F2]] & [v2 V2] & U2).
  repeat split.
  - exists (e1 ++ e2). rewrite T2, T1, <- app_assoc. split; auto.
    rewrite forallb_app, F1, F2. reflexivity.
  - exists (v1 ++ v2). rewrite V2, V1, <- app_assoc. reflexivity.
  - congruence.
Qed.

Lemma growing_ret {A} (a : A) : growing (ret a).
Proof. intros s r s' H. inversion H; subst. apply grows_refl. Qed.

Lemma growing_throw {A} (e : JsError) : growing (@throw A e).
Proof. intros s r s' H. inversion H; subst. apply grows_refl. Qed.

Lemma growing_bind {A B} (m : M A) (k : A -> M B) :
  growing m -> (forall a, growing (k a)) -> growing (bind m k).
Proof.
  intros Hm Hk s r s' H. unfold bind in H.
  destruct (m s) as [[a|e] s1] eqn:E.
  - eapply grows_trans; [eapply Hm; eauto | eapply Hk; eauto].
  - inversion H; subst. eapply Hm; eauto.
Qed.

Lemma growing_log (e : Event) : fileEvent e = true -> growing (log e).
Proof.
  intros He s r s' H. inversion H; subst; simpl. repeat split; simpl.
  - exists [e]. split; auto. simpl. rewrite He. reflexivity.
  - exists []. rewrite app_nil_r. reflexivity.
Qed.

Lemma growing_pushError (msg : string) : growing (pushError msg).
Proof.
  intros s r s' H. inversion H; subst; simpl. repeat split; simpl.
  - exists []. rewrite app_nil_r. auto.
  - exists [msg]. reflexivity.
Qed.

Lemma growing_setResult (k : string) (pf : ProcessedFile) : growing (setResult k pf).
Proof.
  intros s r s' H. inversion H; subst; simpl. repeat split; simpl.
  - exists []. rewrite app_nil_r. auto.
  - exists []. rewrite app_nil_r. auto.
Qed.

Section Growing.

Variable env : Env.
Variable this : FileUploader.

Lemma growing_randomUUID : growing (randomUUID env).
Proof.
  intros s r s' H. inversion H; subst; simpl. repeat split; simpl.
  - exists []. rewrite app_nil_r. auto.
  - exists []. rewrite app_nil_r. auto.
Qed.

Lemma growing_newDate : growing (newDate env).
Proof.
  intros s r s' H. inversion H; subst; simpl. repeat split; simpl.
  - exists []. rewrite app_nil_r. auto.
  - exists []. rewrite app_nil_r. auto.
Qed.

Lemma growing_ensureDir (p : string) : growing (ensureDir env p).
Proof.
  unfold ensureDir. destruct (fsFault env p).
  - apply growing_throw.
  - apply growing_log. reflexivity.
Qed.

Lemma growing_writeFile (p : string) (d : list Byte.byte) : growing (writeFile env p d).
Proof.
  unfold writeFile. destruct (fsFault env p).
  - apply growing_throw.
  - apply growing_log. reflexivity.
Qed.

Lemma growing_arrayBuffer (f : File) : growing (arrayBuffer f).
Proof.
  unfold arrayBuffer. apply growing_bind.
  - apply growing_log. reflexivity.
  - intros _. apply growing_ret.
Qed.

Hint Resolve growing_ret growing_throw growing_pushError growing_setResult
  growing_randomUUID growing_newDate growing_ensureDir growing_writeFile
  growing_arrayBuffer : growing.

Ltac growing_step :=
  repeat first
    [ solve [auto with growing]
    | match goal with
      | |- growing (if ?b then _ else _) => destruct b
      end
    | apply growing_bind; [| intros ?] ].

Lemma growing_saveFileToDisk (file : File) : growing (saveFileToDisk env this file).
Proof. unfold saveFileToDisk. growing_step. Qed.

Lemma growing_processFile (pf : ProcessedFile) (file : File) :
  growing (processFile env this pf file).
Proof.
  unfold processFile. growing_step; apply growing_saveFileToDisk.
Qed.

Lemma growing_processLoop (files : list File) :
  forall pf, growing (processLoop env this pf files).
Proof.
  induction files as [|f rest IH]; intros pf; simpl.
  - apply growing_ret.
  - apply growing_bind; [apply growing_processFile | intros pf'; apply IH].
Qed.

Lemma growing_processEntry (entry : string * FormValue) :
  growing (processEntry env this entry).
Proof.
  destruct entry as [key [f | items |]]; simpl.
  - apply growing_bind; [apply growing_processLoop | intros; apply growing_setResult].
  - destruct (0 <? length (filesOf items))%nat.
    + apply growing_bind; [apply growing_processLoop | intros; apply growing_setResult].
    + apply growing_ret.
  - apply growing_ret.
Qed.

Lemma growing_processEntries (entries : list (string * FormValue)) :
  growing (processEntries env this entries).
Proof.
  induction entries as [|e rest IH]; simpl.
  - apply growing_ret.
  - apply growing_bind; [apply growing_processEntry | intros _; apply IH].
Qed.

End Growing.

Lemma filter_fileEvents (evs : list Event) :
  forallb fileEvent evs = true -> List.filter isNext evs = [].
Proof.
  induction evs as [|e evs IH]; simpl; intros H; auto.
  apply andb_true_iff in H. destruct H as [He Hr].
  destruct e; simpl in *; try discriminate; auto.
Qed.

Lemma grows_nextCalls (s s' : State) : grows s s' -> nextCalls s' = nextCalls s.
Proof.
  intros ([evs [T F]] & _ & _). unfold nextCalls.
  rewrite T, List.filter_app, (filter_fileEvents evs F), app_nil_r. reflexivity.
Qed.

Lemma nextCalls_logged_next (s : State) : nextCalls (logged EvNext s) = S (nextCalls s).
Proof.
  unfold nextCalls, logged; simpl. rewrite List.filter_app, length_app. simpl. lia.
Qed.

Lemma nextCalls_logged_onError (e : JsError) (s : State) :
  nextCalls (logged (EvOnError e) s) = nextCalls s.
Proof.
  unfold nextCalls, logged; simpl. rewrite List.filter_app, length_app. simpl. lia.
Qed.

(** Invoking a callback: the mark, then the outcome. *)
Lemma call_eq (e : Event) (f : State -> Outcome) (s : State) :
  call e f s =
  match f (logged e s) with
  | None => (Normal tt, logged e s)
  | Some err => (Throw err, logged e s)
  end.
Proof. reflexivity. Qed.

(* ===================================================================== *)
(** * The middleware: the three ways through the [try] block              *)
(* ===================================================================== *)

Section Middleware.

Variable env : Env.
Variable this : FileUploader.

Lemma middleware_throw (request : Request) (next : State -> Outcome)
    (s s1 : State) (e : JsError) :
  tryBlock env this request next s = (Throw e, s1) ->
  middleware env this request next s = catchThenNext this request next e s1.
Proof.
  intros H. unfold middleware, bind, tryCatch. rewrite H.
  unfold catchThenNext. rewrite call_eq.
  destruct (onError (options this) request e (logged (EvOnError e) s1)); reflexivity.
Qed.

Lemma middleware_normal (request : Request) (next : State -> Outcome) (s s1 : State) :
  tryBlock env this request next s = (Normal tt, s1) ->
  middleware env this request next s = call EvNext next s1.
Proof. intros H. unfold middleware, bind, tryCatch. rewrite H. reflexivity. Qed.

(** The [try] block once the preconditions hold and the entries have been
    processed without an exception, leaving the state [s1]. *)
Lemma tryBlock_processed (request : Request) (next : State -> Outcome)
    (entries : list (string * FormValue)) (s s1 : State) :
  preconditionError this request = None ->
  formData request = Normal entries ->
  processEntries env this entries s = (Normal tt, s1) ->
  tryBlock env this request next s =
    if (0 <? length (validationErrors s1))%nat
    then (Throw (Error (aggregatedMessage (validationErrors s1))), s1)
    else call EvNext next (attached s1).
Proof.
  intros Hpre Hform Hproc. unfold tryBlock. rewrite Hpre.
  unfold bind at 1. rewrite Hform.
  unfold bind at 1. rewrite Hproc.
  unfold bind at 1, getValidationErrors.
  destruct (0 <? length (validationErrors s1))%nat; reflexivity.
Qed.

End Middleware.


(** C4 (amended).  A file that the extension check lets through and whose
    size exceeds [maxFileSizeBytes] adds exactly the size message, which
    names the file, its size and the limit, to the error list; the trace is
    unchanged, so nothing was read and nothing was written, no identifier is
    drawn, and the loop goes on with the remaining files. *)
Theorem C4_oversized_file_is_skipped
    (env : Env) (this : FileUploader) (pf : ProcessedFile)
    (file : File) (rest : list File) (s : State) :
  extensionRejected this file = false ->
  (maxFileSizeBytes (options this) < file_size file)%Z ->
  let pf' := mkProcessedFile (file_name file) (file_size file) (file_type file)
                             (contents pf) (uri pf) (url pf) in
  let s' := mkState (uuidsUsed s) (clockReads s) (trace s)
                    (validationErrors s ++ [sizeMessage this file])
                    (result s) (uploadedFiles s) in
  sizeMessage this file =
    "File size exceeds limit. File: " +:+ file_name file +:+ ", Size: "
    +:+ pretty (file_size file) +:+ " bytes, Limit: "
    +:+ pretty (maxFileSizeBytes (options this)) +:+ " bytes. " /\
  processFile env this pf file s = (Normal pf', s') /\
  processLoop env this pf (file :: rest) s = processLoop env this pf' rest s'.
Proof.
  intros Hext Hsize pf' s'. apply Z.ltb_lt in Hsize.
  assert (Hone : processFile env this pf file s = (Normal pf', s')).
  { unfold processFile. rewrite Hext. unfold sizeRejected. rewrite Hsize. reflexivity. }
  split; [reflexivity |]. split; [exact Hone |].
  simpl. unfold bind at 1. rewrite Hone. reflexivity.
Qed.

(** C9 (amended).  When the preconditions hold and every entry has been
    processed without an exception, a non-empty error list makes the [try]
    block throw one error whose message joins all the messages of the list;
    the [catch] block hands it to [onError].  If [onError] returns, the
    continuation is then invoked, once; if [onError] throws, its error
    leaves the middleware and the continuation is not invoked. *)
Theorem C9_aggregated_error_then_next
    (env : Env) (this : FileUploader) (request : Request)
    (next : State -> Outcome) (entries : list (string * FormValue))
    (s s1 : State) :
  preconditionError this request = None ->
  formData request = Normal entries ->
  processEntries env this entries s = (Normal tt, s1) ->
  validationErrors s1 <> [] ->
  let e := Error ("Unprocessable Entity: " +:+ Js.join " " (validationErrors s1)) in
  let s2 := logged (EvOnError e) s1 in
  (onError (options this) request e s2 = None ->
     exists r, middleware env this request next s = (r, logged EvNext s2) /\
               nextCalls (logged EvNext s2) = S (nextCalls s)) /\
  (forall err, onError (options this) request e s2 = Some err ->
     middleware env this request next s = (Throw err, s2) /\
     nextCalls s2 = nextCalls s).
Proof.
  intros Hpre Hform Hproc Hne e s2.
  assert (Hgrow : nextCalls s1 = nextCalls s).
  { apply grows_nextCalls. eapply growing_processEntries; eauto. }
  assert (Hrun : middleware env this request next s = catchThenNext this request next e s1).
  { apply middleware_throw.
    rewrite (tryBlock_processed env this request next entries s s1 Hpre Hform Hproc).
    destruct (validationErrors s1); [congruence | reflexivity]. }
  split.
  - intros Hok. rewrite Hrun. unfold catchThenNext. fold s2. rewrite Hok, call_eq.
    destruct (next (logged EvNext s2)); eexists; (split; [reflexivity |]);
      rewrite nextCalls_logged_next; unfold s2;
      rewrite nextCalls_logged_onError; congruence.
  - intros err Herr. rewrite Hrun. unfold catchThenNext. fold s2. rewrite Herr.
    split; [reflexivity |]. unfold s2. rewrite nextCalls_logged_onError. exact Hgrow.
Qed.

(** C10 (amended).  When the preconditions hold, every entry has been
    processed without an exception and the error list is empty, the result
    is attached to the context and the continuation is invoked right after.
    If that invocation returns, the continuation is invoked a second time
    and its outcome, whatever it is, is the outcome of the middleware.  If
    the first invocation throws, its error goes to [onError]; when [onError]
    returns, the continuation is invoked a second time as well; when
    [onError] throws, its error leaves the middleware and the continuation
    has been invoked once. *)
Theorem C10_next_invoked_twice_on_success
    (env : Env) (this : FileUploader) (request : Request)
    (next : State -> Outcome) (entries : list (string * FormValue))
    (s s1 : State) :
  preconditionError this request = None ->
  formData request = Normal entries ->
  processEntries env this entries s = (Normal tt, s1) ->
  validationErrors s1 = [] ->
  let first := logged EvNext (attached s1) in
  let out := middleware env this request next s in
  let outcome (o : Outcome) : Completion unit :=
    match o with None => Normal tt | Some err => Throw err end in
  uploadedFiles (snd out) = true /\
  (next first = None ->
     out = (outcome (next (logged EvNext first)), logged EvNext first) /\
     trace (snd out) = trace s1 ++ [EvNext; EvNext] /\
     nextCalls (snd out) = nextCalls s + 2) /\
  (forall e, next first = Some e ->
     let caught := logged (EvOnError e) first in
     (onError (options this) request e caught = None ->
        out = (outcome (next (logged EvNext caught)), logged EvNext caught) /\
        trace (snd out) = trace s1 ++ [EvNext; EvOnError e; EvNext] /\
        nextCalls (snd out) = nextCalls s + 2) /\
     (forall err, onError (options this) request e caught = Some err ->
        out = (Throw err, caught) /\
        trace (snd out) = trace s1 ++ [EvNext; EvOnError e] /\
        nextCalls (snd out) = nextCalls s + 1)).
Proof.
  intros Hpre Hform Hproc Hempty first out outcome.
  assert (Hgrow : nextCalls s1 = nextCalls s).
  { apply grows_nextCalls. eapply growing_processEntries; eauto. }
  pose proof (tryBlock_processed env this request next entries s s1 Hpre Hform Hproc) as Htry.
  rewrite Hempty in Htry. cbn [length Nat.ltb Nat.leb] in Htry. rewrite call_eq in Htry.
  fold first in Htry.
  assert (Hfirst : nextCalls first = nextCalls s + 1).
  { unfold first. rewrite nextCalls_logged_next. unfold nextCalls in *. simpl. lia. }
  unfold out. clear out.
  destruct (next first) as [e1|] eqn:Hn1.
  - rewrite (middleware_throw env this request next s first e1 Htry).
    unfold catchThenNext. rewrite call_eq.
    split; [| split; [intros H; discriminate H |]].
    + destruct (onError (options this) request e1 (logged (EvOnError e1) first));
        [reflexivity |].
      destruct (next (logged EvNext (logged (EvOnError e1) first))); reflexivity.
    + intros e He. injection He as <-. cbv zeta. split.
      * intros Hok. rewrite Hok.
        destruct (next (logged EvNext (logged (EvOnError e1) first)));
          (split; [reflexivity |]);
          (split; [simpl; rewrite <- !app_assoc; reflexivity |]);
          cbn [snd]; rewrite nextCalls_logged_next, nextCalls_logged_onError; lia.
      * intros err Herr. rewrite Herr. split; [reflexivity |].
        split; [simpl; rewrite <- !app_assoc; reflexivity |].
        cbn [snd]. rewrite nextCalls_logged_onError. lia.
  - rewrite (middleware_normal env this request next s first Htry), call_eq.
    split; [| split; [| intros e He; discriminate He]].
    + destruct (next (logged EvNext first)); reflexivity.
    + intros _.
      destruct (next (logged EvNext first));
        (split; [reflexivity |]);
        (split; [simpl; rewrite <- !app_assoc; reflexivity |]);
        cbn [snd]; rewrite nextCalls_logged_next; lia.
Qed.

(* ===================================================================== *)
(** * Strings and paths                                                   *)
(* ===================================================================== *)

Lemma append_cons (c : ascii) (a b : string) :
  String c a +:+ b = String c (a +:+ b).
Proof. reflexivity. Qed.

Lemma append_nil_l (s : string) : "" +:+ s = s.
Proof. reflexivity. Qed.

Lemma append_nil_r (s : string) : s +:+ "" = s.
Proof. induction s; [reflexivity | rewrite append_cons; congruence]. Qed.

Lemma append_assoc (a b c : string) : (a +:+ b) +:+ c = a +:+ (b +:+ c).
Proof. induction a; [reflexivity | rewrite !append_cons; congruence]. Qed.

Lemma length_append (a b : string) :
  String.length (a +:+ b) = String.length a + String.length b.
Proof. induction a; [reflexivity | rewrite append_cons; simpl; auto]. Qed.

(** Cancellation of a common suffix. *)
Lemma append_inv_tail (a b t : string) : a +:+ t = b +:+ t -> a = b.
Proof.
  revert b. induction a as [|c a IH]; intros [|d b] H; auto.
  - exfalso. apply (f_equal String.length) in H.
    rewrite append_nil_l, append_cons in H. simpl in H.
    rewrite length_append in H. lia.
  - exfalso. apply (f_equal String.length) in H.
    rewrite append_nil_l, append_cons in H. simpl in H.
    rewrite length_append in H. lia.
  - rewrite !append_cons in H. inversion H; subst. f_equal. apply IH. assumption.
Qed.

Module PathFacts.
Import Path.

Lemma split_nonnil (c : ascii) (s : string) : Js.split c s <> [].
Proof.
  destruct s as [|d s]; simpl; [discriminate |].
  destruct (Ascii.eqb d c); [discriminate |].
  destruct (Js.split c s); discriminate.
Qed.

Lemma split_app (c : ascii) (a b : string) :
  Js.split c (a +:+ String c b) = Js.split c a ++ Js.split c b.
Proof.
  induction a as [|d a IH]; [rewrite append_nil_l | rewrite append_cons]; simpl.
  - rewrite Ascii.eqb_refl. reflexivity.
  - destruct (Ascii.eqb d c); rewrite IH; [reflexivity |].
    destruct (Js.split c a) eqn:E; [destruct (split_nonnil c a E) | reflexivity].
Qed.

Lemma split_sepFree (s : string) : sepFree s = true -> Js.split "/" s = [s].
Proof.
  induction s as [|d s IH]; simpl; [reflexivity |].
  intros H. apply andb_true_iff in H. destruct H as [Hd Hs].
  apply negb_true_iff in Hd. rewrite Hd, (IH Hs). reflexivity.
Qed.

Lemma split_all_sepFree (s : string) :
  Forall (fun x => sepFree x = true) (Js.split "/" s).
Proof.
  induction s as [|d s IH]; simpl.
  - constructor; [reflexivity | constructor].
  - destruct (Ascii.eqb d "/") eqn:E.
    + constructor; [reflexivity | exact IH].
    + destruct (Js.split "/" s) as [|h t]; [constructor; [simpl; rewrite E; reflexivity | constructor] |].
      inversion IH; subst. constructor; [simpl; rewrite E; simpl; assumption | assumption].
Qed.

Lemma split_concat (l : list string) :
  Forall (fun x => sepFree x = true) l -> l <> [] ->
  Js.split "/" (String.concat "/" l) = l.
Proof.
  induction l as [|x l IH]; intros Hall Hne; [congruence |].
  inversion Hall; subst. destruct l as [|y l].
  - simpl. apply split_sepFree. assumption.
  - change (String.concat "/" (x :: y :: l))
      with (x +:+ String "/" (String.concat "/" (y :: l))).
    rewrite split_app, split_sepFree by assumption.
    rewrite IH by (auto; discriminate). reflexivity.
Qed.

Lemma isSegment_spec (s : string) :
  isSegment s = true <->
  sepFree s = true /\ s <> "" /\ s <> "." /\ s <> "..".
Proof.
  unfold isSegment. rewrite !andb_true_iff, !negb_true_iff, !String.eqb_neq. tauto.
Qed.

Lemma step_segment (m : bool) (st : list string) (seg : string) :
  isSegment seg = true -> step m st seg = seg :: st.
Proof.
  intros H. apply isSegment_spec in H. destruct H as (_ & H1 & H2 & H3).
  unfold step. apply String.eqb_neq in H1, H2, H3. rewrite H1, H2, H3. reflexivity.
Qed.

Lemma step_empty (m : bool) (st : list string) : step m st "" = st.
Proof. reflexivity. Qed.

Lemma step_dot (m : bool) (st : list string) : step m st "." = st.
Proof. reflexivity. Qed.

(** Three kinds of segments. *)
Lemma segment_cases (seg : string) :
  sepFree seg = true ->
  seg = "" \/ seg = "." \/ seg = ".." \/ isSegment seg = true.
Proof.
  intros H. destruct (String.eqb_spec seg ""); auto.
  destruct (String.eqb_spec seg "."); auto.
  destruct (String.eqb_spec seg ".."); auto.
  right; right; right. apply isSegment_spec. auto.
Qed.

Lemma wfStack_nil (m : bool) : wfStack m [].
Proof. exists [], 0. repeat split; auto. Qed.

Lemma step_wf (m : bool) (st : list string) (seg : string) :
  wfStack m st -> sepFree seg = true -> wfStack m (step m st seg).
Proof.
  intros (names & k & -> & Hn & Hk) Hs.
  destruct (segment_cases seg Hs) as [-> | [-> | [-> | Hseg]]].
  - exists names, k. auto.
  - exists names, k. auto.
  - destruct names as [|n names].
    + simpl. destruct k as [|k]; simpl.
      * destruct m; [exists [], 1 | exists [], 0]; repeat split; auto. discriminate.
      * destruct m.
        -- exists [], (S (S k)). repeat split; auto. discriminate.
        -- specialize (Hk eq_refl). discriminate.
    + inversion Hn; subst. unfold step. simpl.
      assert (En : String.eqb n ".." = false).
      { apply String.eqb_neq. apply isSegment_spec in H1. tauto. }
      rewrite En. exists names, k. auto.
  - rewrite step_segment by assumption.
    exists (seg :: names), k. repeat split; auto.
Qed.

Lemma fold_wf (m : bool) (l : list string) :
  Forall (fun x => sepFree x = true) l ->
  forall st, wfStack m st -> wfStack m (fold_left (step m) l st).
Proof.
  induction 1 as [|x l Hx Hl IH]; intros st Hst; simpl; auto.
  apply IH. apply step_wf; assumption.
Qed.

Lemma stackOf_wf (m : bool) (p : string) : wfStack m (stackOf m p).
Proof. apply fold_wf; [apply split_all_sepFree | apply wfStack_nil]. Qed.

Lemma fold_push (m : bool) (names : list string) :
  Forall (fun x => isSegment x = true) names ->
  forall st, fold_left (step m) names st = rev names ++ st.
Proof.
  induction 1 as [|x l Hx Hl IH]; intros st; simpl; auto.
  rewrite step_segment by assumption. rewrite IH, <- app_assoc. reflexivity.
Qed.

Lemma fold_dots (k : nat) :
  fold_left (step true) (repeat ".." k) [] = repeat ".." k.
Proof.
  assert (H : forall j, fold_left (step true) (repeat ".." k) (repeat ".." j)
                        = repeat ".." (k + j)).
  { induction k as [|k IH]; intros j; simpl; [reflexivity |].
    replace (step true (repeat ".." j) "..") with (repeat ".." (S j)).
    - rewrite IH. replace (k + S j) with (S (k + j)) by lia. reflexivity.
    - destruct j; reflexivity. }
  specialize (H 0). simpl in H. rewrite H. replace (k + 0) with k by lia. reflexivity.
Qed.

(** Reading the segments of a well-formed stack back gives the stack. *)
Lemma fold_rev_wf (m : bool) (st : list string) :
  wfStack m st -> fold_left (step m) (rev st) [] = st.
Proof.
  intros (names & k & -> & Hn & Hk).
  rewrite rev_app_distr, rev_repeat, fold_left_app.
  assert (Hd : fold_left (step m) (repeat ".." k) [] = repeat ".." k).
  { destruct m; [apply fold_dots |]. rewrite (Hk eq_refl). reflexivity. }
  rewrite Hd, fold_push, rev_involutive; [reflexivity |].
  apply Forall_rev. assumption.
Qed.

(** ** Rendering a stack and reading it back *)

Lemma wfStack_plain (m : bool) (st : list string) :
  wfStack m st -> Forall plain st.
Proof.
  intros (names & k & -> & Hn & _). apply Forall_app. split.
  - eapply Forall_impl; [exact Hn |]. intros x Hx.
    apply isSegment_spec in Hx. split; tauto.
  - clear. induction k; simpl; constructor; auto. split; [reflexivity | discriminate].
Qed.

Lemma plain_sepFree (l : list string) :
  Forall plain l -> Forall (fun x => sepFree x = true) l.
Proof. intros H. eapply Forall_impl; [exact H |]. intros x [Hs _]. exact Hs. Qed.

Lemma concat_cons2 (x y : string) (l : list string) :
  String.concat "/" (x :: y :: l) = x +:+ String "/" (String.concat "/" (y :: l)).
Proof. reflexivity. Qed.

Lemma concat_snoc (l : list string) (x : string) :
  l <> [] ->
  String.concat "/" (l ++ [x]) = String.concat "/" l +:+ String "/" x.
Proof.
  induction l as [|a l IH]; intros Hne; [congruence |].
  destruct l as [|b l].
  - reflexivity.
  - change ((a :: b :: l) ++ [x]) with (a :: b :: (l ++ [x])).
    rewrite !concat_cons2. change (b :: l ++ [x]) with ((b :: l) ++ [x]).
    rewrite IH by discriminate. rewrite append_assoc, append_cons. reflexivity.
Qed.

Lemma isAbsolute_cons (c : ascii) (s : string) :
  isAbsolute (String c s) = Ascii.eqb c "/".
Proof.
  unfold isAbsolute. cbn [String.prefix].
  destruct (Ascii.ascii_dec "/" c) as [<- | Hd].
  - rewrite Ascii.eqb_refl. destruct s; reflexivity.
  - symmetry. apply Ascii.eqb_neq. congruence.
Qed.

Lemma plain_not_absolute (x t : string) : plain x -> isAbsolute (x +:+ t) = false.
Proof.
  intros [Hs Hne]. destruct x as [|c x]; [congruence |].
  rewrite append_cons, isAbsolute_cons.
  simpl in Hs. apply andb_true_iff in Hs. destruct Hs as [Hc _].
  apply negb_true_iff in Hc. exact Hc.
Qed.

Lemma concat_not_absolute (l : list string) :
  Forall plain l -> isAbsolute (String.concat "/" l) = false.
Proof.
  intros H. destruct H as [|x l Hx Hl]; [reflexivity |].
  destruct l as [|y l].
  - simpl. rewrite <- (append_nil_r x). apply plain_not_absolute. assumption.
  - rewrite concat_cons2. apply plain_not_absolute. assumption.
Qed.

Lemma concat_nonempty (l : list string) :
  Forall plain l -> l <> [] -> String.concat "/" l <> "".
Proof.
  intros H Hne. destruct H as [|x l [_ Hx] Hl]; [congruence |].
  destruct x as [|c x]; [congruence |].
  destruct l; simpl; [discriminate | rewrite append_cons; discriminate].
Qed.

Lemma endsWithSep_cons (c : ascii) (s : string) :
  s <> "" -> endsWithSep (String c s) = endsWithSep s.
Proof. destruct s; [congruence | reflexivity]. Qed.

Lemma endsWithSep_app (a b : string) :
  b <> "" -> endsWithSep (a +:+ b) = endsWithSep b.
Proof.
  intros Hb. induction a as [|c a IH]; [reflexivity |].
  rewrite append_cons, endsWithSep_cons; [exact IH |].
  destruct a; [exact Hb | rewrite append_cons; discriminate].
Qed.

Lemma endsWithSep_sepFree (x : string) : sepFree x = true -> endsWithSep x = false.
Proof.
  induction x as [|c x IH]; [reflexivity |]. simpl.
  intros H. apply andb_true_iff in H. destruct H as [Hc Hx].
  apply negb_true_iff in Hc. destruct x; [exact Hc | apply IH; exact Hx].
Qed.

Lemma endsWithSep_concat (l : list string) :
  Forall plain l -> endsWithSep (String.concat "/" l) = false.
Proof.
  induction 1 as [|x l [Hs Hne] Hl IH]; [reflexivity |].
  destruct l as [|y l].
  - simpl. apply endsWithSep_sepFree. exact Hs.
  - rewrite concat_cons2. inversion Hl; subst.
    rewrite endsWithSep_app by discriminate.
    rewrite endsWithSep_cons; [exact IH | apply concat_nonempty; [assumption | discriminate]].
Qed.

(** The segments that [split] reads off a rendered path. *)
Lemma split_render (m abs : bool) (st : list string) :
  wfStack m st ->
  Js.split "/" (render abs st) =
    (if abs then [""] else []) ++
    match st with
    | [] => [if abs then "" else "."]
    | _ => rev st
    end.
Proof.
  intros Hwf. pose proof (wfStack_plain m st Hwf) as Hp.
  assert (Hbody : st <> [] -> Js.split "/" (String.concat "/" (rev st)) = rev st).
  { intros Hne. apply split_concat.
    - apply plain_sepFree, Forall_rev, Hp.
    - intros E. apply Hne. rewrite <- (rev_involutive st), E. reflexivity. }
  unfold render. destruct abs.
  - change ("/" +:+ ?x) with (String "/" x). cbn [Js.split Ascii.eqb Bool.eqb].
    destruct st as [|x st]; [reflexivity |]. rewrite Hbody by discriminate. reflexivity.
  - rewrite append_nil_l. destruct st as [|x st]; [reflexivity |].
    rewrite Hbody by discriminate. reflexivity.
Qed.

Ltac skipped_tac :=
  repeat (constructor; [first [left; reflexivity | right; reflexivity] |]);
  try constructor.

Lemma fold_skipped (a : bool) (l : list string) :
  Forall skipped l -> forall S, fold_left (step a) l S = S.
Proof.
  induction 1 as [|x l [-> | ->] Hl IH]; intros S; simpl; auto.
Qed.

(** Reading a rendered path, with or without a trailing separator, on top
    of any stack amounts to reading its segments. *)
Lemma fold_split_render (m abs a trailing : bool) (st S : list string) :
  wfStack m st ->
  fold_left (step a)
    (Js.split "/" (render abs st +:+ (if trailing then "/" else ""))) S
  = fold_left (step a) (rev st) S.
Proof.
  intros Hwf.
  assert (H0 : fold_left (step a) (Js.split "/" (render abs st)) S
               = fold_left (step a) (rev st) S).
  { rewrite (split_render m abs st Hwf), fold_left_app.
    rewrite (fold_skipped a (if abs then [""] else []))
      by (destruct abs; skipped_tac).
    destruct st as [|x st]; [| reflexivity].
    apply fold_skipped. destruct abs; skipped_tac. }
  destruct trailing.
  - change "/" with (String "/" ""). rewrite split_app, fold_left_app, H0.
    reflexivity.
  - rewrite append_nil_r. exact H0.
Qed.

(** ** [normalize] in terms of the stack *)

Lemma normalizeString_eq (m : bool) (x : string) :
  normalizeString m x = String.concat "/" (rev (stackOf m x)).
Proof. reflexivity. Qed.

Lemma normalize_render (x : string) :
  let abs := isAbsolute x in
  let st := stackOf (negb abs) x in
  normalize x =
    render abs st +:+
    (if endsWithSep x && negb (abs && match st with [] => true | _ => false end)
     then "/" else "").
Proof.
  intros abs st. unfold normalize. cbv zeta. fold abs.
  rewrite normalizeString_eq. fold st.
  pose proof (wfStack_plain _ _ (stackOf_wf (negb abs) x)) as Hp. fold st in Hp.
  unfold render. destruct st as [|t st].
  - simpl. destruct abs; simpl.
    + rewrite andb_false_r. reflexivity.
    + rewrite andb_true_r. destruct (endsWithSep x); reflexivity.
  - assert (Hne : String.concat "/" (rev (t :: st)) <> "").
    { apply concat_nonempty; [apply Forall_rev, Hp |].
      intros E. apply (f_equal (@rev string)) in E. rewrite rev_involutive in E.
      discriminate. }
    unfold Js.falsy. apply String.eqb_neq in Hne.
    remember (String.concat "/" (rev (t :: st))) as body.
    repeat (rewrite Hne; cbn [negb andb]). rewrite andb_false_r, andb_true_r.
    destruct abs, (endsWithSep x); cbn [negb andb];
      rewrite ?append_nil_r, ?append_nil_l, ?append_assoc; reflexivity.
Qed.

Lemma isAbsolute_render (m abs : bool) (st : list string) (t : string) :
  wfStack m st -> isAbsolute (render abs st +:+ t) = abs.
Proof.
  intros Hwf. unfold render. destruct abs.
  { rewrite append_assoc. change ("/" +:+ ?u) with (String "/" u).
    apply isAbsolute_cons. }
  rewrite append_nil_l. destruct st as [|x st]; [reflexivity |].
  pose proof (wfStack_plain m _ Hwf) as Hp.
  assert (Hr : Forall plain (rev (x :: st))) by (apply Forall_rev, Hp).
  destruct (rev (x :: st)) as [|y l] eqn:E.
  { apply (f_equal (@rev string)) in E. rewrite rev_involutive in E. discriminate. }
  inversion Hr; subst. destruct l as [|z l].
  - simpl. apply plain_not_absolute. assumption.
  - rewrite concat_cons2, append_assoc. apply plain_not_absolute. assumption.
Qed.

Lemma isAbsolute_normalize (x : string) : isAbsolute (normalize x) = isAbsolute x.
Proof.
  rewrite normalize_render. eapply isAbsolute_render. apply stackOf_wf.
Qed.

Lemma render_nonempty (abs : bool) (st : list string) (m : bool) :
  wfStack m st -> render abs st <> "".
Proof.
  intros Hwf. unfold render. destruct abs; [discriminate |]. rewrite append_nil_l.
  destruct st as [|x st]; [discriminate |].
  apply concat_nonempty; [apply Forall_rev, (wfStack_plain m), Hwf |].
  intros E. apply (f_equal (@rev string)) in E. rewrite rev_involutive in E.
  discriminate.
Qed.

Lemma normalize_nonempty (x : string) : normalize x <> "".
Proof.
  rewrite normalize_render. intros E.
  destruct (render (isAbsolute x) (stackOf (negb (isAbsolute x)) x)) eqn:R.
  - eapply render_nonempty; [apply stackOf_wf | exact R].
  - rewrite append_cons in E. discriminate.
Qed.

(** ** Joining *)

Lemma falsy_false (s : string) : s <> "" -> Js.falsy s = false.
Proof. intros H. apply String.eqb_neq. exact H. Qed.

Lemma join2 (d y : string) :
  d <> "" -> y <> "" -> join [d; y] = normalize (d +:+ String "/" y).
Proof.
  intros Hd Hy. unfold join. simpl.
  rewrite (falsy_false d Hd), (falsy_false y Hy). reflexivity.
Qed.

Lemma join_empty_l (y : string) : y <> "" -> join [""; y] = normalize y.
Proof. intros Hy. unfold join. simpl. rewrite (falsy_false y Hy). reflexivity. Qed.

Lemma stackOf_app (m : bool) (d y : string) :
  stackOf m (d +:+ String "/" y) = fold_left (step m) (Js.split "/" y) (stackOf m d).
Proof. unfold stackOf. rewrite split_app, fold_left_app. reflexivity. Qed.

Lemma isAbsolute_app (d t : string) : d <> "" -> isAbsolute (d +:+ t) = isAbsolute d.
Proof.
  destruct d as [|c d]; [congruence |]. intros _.
  rewrite append_cons, !isAbsolute_cons. reflexivity.
Qed.

Lemma canon_normalize (x : string) :
  endsWithSep x = false ->
  Canon (isAbsolute x) (stackOf (negb (isAbsolute x)) x) (normalize x).
Proof.
  intros Ht. split; [apply stackOf_wf |].
  rewrite normalize_render, Ht. simpl. apply append_nil_r.
Qed.

Lemma canon_stackOf (abs : bool) (st : list string) (d : string) :
  Canon abs st d -> stackOf (negb abs) d = st.
Proof.
  intros [Hwf ->]. unfold stackOf.
  rewrite <- (append_nil_r (render abs st)).
  rewrite (fold_split_render (negb abs) abs (negb abs) false st [] Hwf).
  apply fold_rev_wf. exact Hwf.
Qed.

(** Joining a rendered directory with one more argument: the segments of
    the argument are read on top of the stack of the directory. *)
Lemma join_canon_l (abs : bool) (st : list string) (d y : string) :
  Canon abs st d -> y <> "" -> endsWithSep y = false ->
  Canon abs (fold_left (step (negb abs)) (Js.split "/" y) st) (join [d; y]).
Proof.
  intros Hc Hy Ht. pose proof Hc as [Hwf Hd].
  assert (Hne : d <> "") by (rewrite Hd; eapply render_nonempty; eauto).
  rewrite (join2 d y Hne Hy).
  set (z := d +:+ String "/" y).
  assert (Habs : isAbsolute z = abs).
  { unfold z. rewrite Hd. eapply isAbsolute_render. exact Hwf. }
  assert (Htr : endsWithSep z = false).
  { unfold z. rewrite endsWithSep_app by discriminate.
    rewrite endsWithSep_cons by exact Hy. exact Ht. }
  pose proof (canon_normalize z Htr) as Hz. rewrite Habs in Hz.
  unfold z in Hz at 1. rewrite stackOf_app, (canon_stackOf abs st d Hc) in Hz.
  exact Hz.
Qed.

(** The same when the first argument is any non-empty string. *)
Lemma join_raw_l (x y : string) :
  x <> "" -> y <> "" -> endsWithSep y = false ->
  Canon (isAbsolute x)
        (fold_left (step (negb (isAbsolute x))) (Js.split "/" y)
                   (stackOf (negb (isAbsolute x)) x))
        (join [x; y]).
Proof.
  intros Hx Hy Ht. rewrite (join2 x y Hx Hy).
  set (z := x +:+ String "/" y).
  assert (Habs : isAbsolute z = isAbsolute x) by (apply isAbsolute_app; exact Hx).
  assert (Htr : endsWithSep z = false).
  { unfold z. rewrite endsWithSep_app by discriminate.
    rewrite endsWithSep_cons by exact Hy. exact Ht. }
  pose proof (canon_normalize z Htr) as Hz. rewrite Habs in Hz.
  unfold z in Hz at 1. rewrite stackOf_app in Hz. exact Hz.
Qed.

Lemma isSegment_facts (y : string) :
  isSegment y = true -> y <> "" /\ endsWithSep y = false /\ Js.split "/" y = [y].
Proof.
  intros H. apply isSegment_spec in H. destruct H as (Hs & Hne & _).
  repeat split; auto using endsWithSep_sepFree, split_sepFree.
Qed.

Lemma segments_plain (l : list string) :
  Forall (fun x => isSegment x = true) l -> Forall plain l.
Proof.
  intros H. eapply Forall_impl; [exact H |]. intros x Hx.
  apply isSegment_spec in Hx. split; tauto.
Qed.

(** A chain of proper segments is a normalised relative path. *)
Lemma join_segments (l : list string) :
  Forall (fun x => isSegment x = true) l -> l <> [] ->
  join l = String.concat "/" l.
Proof.
  intros Hl Hne. pose proof (segments_plain l Hl) as Hp.
  assert (Hf : List.filter (fun p => negb (Js.falsy p)) l = l).
  { clear Hne Hl. induction Hp as [|x l [_ Hx] _ IH]; simpl; [reflexivity |].
    rewrite (falsy_false x Hx). simpl. congruence. }
  unfold join. rewrite Hf. destruct l as [|a l]; [congruence |].
  set (p := String.concat "/" (a :: l)).
  assert (Ht : endsWithSep p = false) by (apply endsWithSep_concat; exact Hp).
  destruct (canon_normalize p Ht) as [_ Hn]. rewrite Hn.
  assert (Ha : isAbsolute p = false) by (apply concat_not_absolute; exact Hp).
  rewrite Ha. simpl negb. unfold stackOf, p.
  rewrite split_concat by (auto using plain_sepFree).
  rewrite fold_push by exact Hl. rewrite app_nil_r.
  unfold render. rewrite append_nil_l, rev_involutive.
  destruct (rev (a :: l)) eqn:E; [| reflexivity].
  apply (f_equal (@rev string)) in E. rewrite rev_involutive in E. discriminate.
Qed.

Lemma render_push (abs : bool) (st : list string) (x : string) :
  st <> [] -> render abs (x :: st) = render abs st +:+ String "/" x.
Proof.
  intros Hne. unfold render. destruct st as [|y st]; [congruence |].
  change (rev (x :: y :: st)) with (rev (y :: st) ++ [x]).
  rewrite concat_snoc.
  - rewrite append_assoc. reflexivity.
  - intros E. apply (f_equal (@rev string)) in E. rewrite rev_involutive in E.
    discriminate.
Qed.

(** The last segment of a rendered path is the top of its stack. *)
Lemma pop_split_render (m abs : bool) (st : list string) (x : string) :
  wfStack m (x :: st) ->
  Js.pop (Js.split "/" (render abs (x :: st))) = Some x.
Proof.
  intros Hwf. rewrite (split_render m abs _ Hwf). unfold Js.pop.
  change (rev (x :: st)) with (rev st ++ [x]).
  rewrite app_assoc. apply last_snoc.
Qed.

Lemma endsWithSep_render (m abs : bool) (st : list string) :
  wfStack m st -> st <> [] -> endsWithSep (render abs st) = false.
Proof.
  intros Hwf Hne. unfold render. destruct st as [|x st]; [congruence |].
  assert (Hp : Forall plain (rev (x :: st))) by (apply Forall_rev, (wfStack_plain m), Hwf).
  rewrite endsWithSep_app.
  - apply endsWithSep_concat. exact Hp.
  - apply concat_nonempty; [exact Hp |].
    intros E. apply (f_equal (@rev string)) in E. rewrite rev_involutive in E.
    discriminate.
Qed.

(** The stack of a normalised path, read in any mode on any stack. *)
Lemma fold_split_normalize (a : bool) (z : string) (S : list string) :
  fold_left (step a) (Js.split "/" (normalize z)) S =
  fold_left (step a) (rev (stackOf (negb (isAbsolute z)) z)) S.
Proof.
  rewrite normalize_render. cbv zeta.
  eapply fold_split_render. apply stackOf_wf.
Qed.

Lemma stackOf_normalize (z : string) :
  stackOf (negb (isAbsolute z)) (normalize z) = stackOf (negb (isAbsolute z)) z.
Proof.
  unfold stackOf at 1. rewrite fold_split_normalize.
  apply fold_rev_wf, stackOf_wf.
Qed.

Lemma parts_normalize (z : string) : parts (normalize z) = parts z.
Proof.
  unfold parts, segments. rewrite isAbsolute_normalize, stackOf_normalize. reflexivity.
Qed.

Lemma canon_idem (abs : bool) (st : list string) (d : string) :
  Canon abs st d -> st <> [] -> normalize d = d.
Proof.
  intros Hc Hne. pose proof Hc as [Hwf Hd].
  assert (Ht : endsWithSep d = false).
  { rewrite Hd. eapply endsWithSep_render; eauto. }
  destruct (canon_normalize d Ht) as [_ Hn].
  assert (Ha : isAbsolute d = abs).
  { rewrite Hd, <- (append_nil_r (render abs st)). eapply isAbsolute_render. exact Hwf. }
  rewrite Hn, Ha, (canon_stackOf abs st d Hc). symmetry. exact Hd.
Qed.

Lemma chain_facts (chain : list string) :
  Forall (fun x => isSegment x = true) chain -> chain <> [] ->
  let c := String.concat "/" chain in
  c <> "" /\ endsWithSep c = false /\ isAbsolute c = false /\
  Js.split "/" c = chain.
Proof.
  intros Hl Hne c. pose proof (segments_plain chain Hl) as Hp. repeat split.
  - apply concat_nonempty; assumption.
  - apply endsWithSep_concat; assumption.
  - apply concat_not_absolute; assumption.
  - apply split_concat; auto using plain_sepFree.
Qed.

(** [join(path, chain)] for a chain of proper segments. *)
Lemma upload_canon (path : string) (chain : list string) :
  Forall (fun x => isSegment x = true) chain -> chain <> [] ->
  Canon (isAbsolute path)
        (rev chain ++ stackOf (negb (isAbsolute path)) path)
        (join [path; String.concat "/" chain]).
Proof.
  intros Hl Hne. destruct (chain_facts chain Hl Hne) as (Hc & Ht & Ha & Hs).
  destruct (String.eqb_spec path "") as [-> | Hp].
  - rewrite (join_empty_l _ Hc).
    pose proof (canon_normalize _ Ht) as Hn. rewrite Ha in Hn.
    unfold stackOf in Hn. rewrite Hs, (fold_push true chain Hl) in Hn. exact Hn.
  - pose proof (join_raw_l path _ Hp Hc Ht) as Hn.
    rewrite Hs, (fold_push _ chain Hl) in Hn. exact Hn.
Qed.

Lemma canon_push (abs : bool) (st : list string) (d name : string) :
  Canon abs st d -> isSegment name = true ->
  Canon abs (name :: st) (join [d; name]).
Proof.
  intros Hc Hn. destruct (isSegment_facts name Hn) as (Hne & Ht & Hs).
  pose proof (join_canon_l abs st d name Hc Hne Ht) as H.
  rewrite Hs in H. simpl in H. rewrite (step_segment _ _ _ Hn) in H. exact H.
Qed.

(** The path that [saveFileToDisk] builds: the segments of the base
    directory, then the chain, then the file name. *)
Lemma saved_path_canon (ucd : bool) (cwd path name : string) (chain : list string) :
  Forall (fun x => isSegment x = true) chain -> chain <> [] ->
  isSegment name = true ->
  let upload := join [path; String.concat "/" chain] in
  let full := if ucd then join [cwd; upload] else upload in
  let base := baseDir ucd cwd path in
  Canon (isAbsolute base) (name :: rev chain ++ rev (parts base)) (join [full; name]).
Proof.
  intros Hl Hne Hn upload full base.
  pose proof (upload_canon path chain Hl Hne) as HU. fold upload in HU.
  set (ap := isAbsolute path) in *. set (stp := stackOf (negb ap) path) in *.
  assert (HstU : rev chain ++ stp <> []).
  { destruct chain; [congruence |]. simpl. intros E.
    apply app_eq_nil in E. destruct E as [E _].
    apply app_eq_nil in E. destruct E as [_ E]. discriminate. }
  destruct ucd; unfold full, base, baseDir.
  - (* resolved under the working directory *)
    pose proof HU as [HwfU HUeq].
    assert (HUne : upload <> "") by (rewrite HUeq; eapply render_nonempty; eauto).
    assert (HUt : endsWithSep upload = false)
      by (rewrite HUeq; eapply endsWithSep_render; eauto).
    destruct (String.eqb_spec cwd "") as [-> | Hc].
    + rewrite (join_empty_l _ HUne), (canon_idem _ _ _ HU HstU).
      rewrite (join_empty_l _ (normalize_nonempty path)).
      rewrite isAbsolute_normalize, parts_normalize.
      rewrite isAbsolute_normalize, parts_normalize.
      unfold parts, segments. fold ap. fold stp. rewrite rev_involutive.
      apply canon_push; assumption.
    + set (ac := isAbsolute cwd). set (stc := stackOf (negb ac) cwd).
      pose proof (join_raw_l cwd upload Hc HUne HUt) as HF.
      fold ac in HF. fold stc in HF.
      assert (Hfold : fold_left (step (negb ac)) (Js.split "/" upload) stc
                      = rev chain ++ fold_left (step (negb ac)) (rev stp) stc).
      { rewrite HUeq, <- (append_nil_r (render ap (rev chain ++ stp))).
        rewrite (fold_split_render (negb ap) ap (negb ac) false _ stc HwfU).
        rewrite rev_app_distr, rev_involutive, fold_left_app.
        apply fold_push. exact Hl. }
      rewrite Hfold in HF.
      pose proof (join2 cwd (normalize path) Hc (normalize_nonempty path)) as HB.
      assert (HBabs : isAbsolute (join [cwd; normalize path]) = ac).
      { rewrite HB, isAbsolute_normalize. apply isAbsolute_app. exact Hc. }
      assert (HBparts : rev (parts (join [cwd; normalize path]))
                        = fold_left (step (negb ac)) (rev stp) stc).
      { unfold parts, segments. rewrite rev_involutive, HBabs. fold ac.
        rewrite HB.
        assert (Hz : isAbsolute (cwd +:+ String "/" (normalize path)) = ac)
          by (apply isAbsolute_app; exact Hc).
        rewrite <- Hz at 1. rewrite stackOf_normalize, Hz.
        rewrite stackOf_app. fold stc. apply fold_split_normalize. }
      rewrite HBabs, HBparts. apply canon_push; assumption.
  - unfold parts, segments. fold ap. fold stp. rewrite rev_involutive.
    apply canon_push; assumption.
Qed.

End PathFacts.

(* ===================================================================== *)
(** * Numbers in paths                                                    *)
(* ===================================================================== *)

Lemma pretty_N_char_num (x : N) : numChar (pretty_N_char x) = true.
Proof. unfold pretty_N_char. repeat case_match; reflexivity. Qed.

Lemma pretty_N_go_num (x : N) : forall s, numStr s = true -> numStr (pretty_N_go x s) = true.
Proof.
  induction (N.lt_wf_0 x) as [x _ IH]; intros s Hs.
  destruct (N.eq_dec x 0%N) as [-> | Hx].
  - rewrite pretty_N_go_0. exact Hs.
  - rewrite pretty_N_go_step by lia. apply IH.
    + apply N.div_lt; lia.
    + simpl. rewrite pretty_N_char_num. exact Hs.
Qed.

Lemma pretty_N_go_nonempty (x : N) : forall s, s <> "" -> pretty_N_go x s <> "".
Proof.
  induction (N.lt_wf_0 x) as [x _ IH]; intros s Hs.
  destruct (N.eq_dec x 0%N) as [-> | Hx].
  - rewrite pretty_N_go_0. exact Hs.
  - rewrite pretty_N_go_step by lia. apply IH; [apply N.div_lt; lia | discriminate].
Qed.

Lemma pretty_pos_num (p : positive) :
  numStr (pretty (N.pos p)) = true /\ pretty (N.pos p) <> "".
Proof.
  unfold pretty, pretty_N. destruct (decide (N.pos p = 0%N)); [discriminate |].
  split; [apply pretty_N_go_num; reflexivity |].
  rewrite pretty_N_go_step by lia. apply pretty_N_go_nonempty. discriminate.
Qed.

Lemma numStr_app (a b : string) : numStr (a +:+ b) = numStr a && numStr b.
Proof.
  induction a as [|c a IH]; [reflexivity |].
  rewrite append_cons. simpl. rewrite IH, andb_assoc. reflexivity.
Qed.

Lemma toString_num (z : Z) : numStr (Js.toString z) = true /\ Js.toString z <> "".
Proof.
  unfold Js.toString, pretty, pretty_Z. destruct z as [|p|p].
  - split; [reflexivity | discriminate].
  - apply (pretty_pos_num p).
  - destruct (pretty_pos_num p) as [H1 H2]. split.
    + rewrite numStr_app. unfold pretty, pretty_positive. rewrite H1. reflexivity.
    + discriminate.
Qed.

Lemma pad2_num (z : Z) : numStr (pad2 z) = true /\ pad2 z <> "".
Proof.
  destruct (toString_num z) as [H1 H2]. unfold pad2, Js.padStart. split.
  - rewrite numStr_app, H1, andb_true_r.
    induction (2 - String.length (Js.toString z)); simpl; auto.
  - intros E. apply H2. destruct (Js.toString z) as [|c t]; [reflexivity |].
    destruct (Js.repeatChar "0" (2 - String.length (String c t)));
      rewrite ?append_cons, ?append_nil_l in E; discriminate.
Qed.

Lemma numChar_not_sep (c : ascii) : numChar c = true -> Ascii.eqb c "/" = false.
Proof.
  intros H. apply Ascii.eqb_neq. intros ->. discriminate.
Qed.

Lemma numChar_not_dot (c : ascii) : numChar c = true -> c <> "."%char.
Proof. intros H ->. discriminate. Qed.

Lemma num_isSegment (s : string) :
  numStr s = true -> s <> "" -> Path.isSegment s = true.
Proof.
  intros Hn Hne. apply PathFacts.isSegment_spec. repeat split; auto.
  - clear Hne. induction s as [|c s IH]; [reflexivity |].
    simpl in *. apply andb_true_iff in Hn. destruct Hn as [Hc Hs].
    rewrite (numChar_not_sep c Hc). simpl. auto.
  - intros ->. discriminate.
  - intros ->. discriminate.
Qed.

Lemma pad2_two_digits (v : Z) :
  (0 <= v < 100)%Z ->
  String.length (pad2 v) = 2 /\
  pad2 v = if (v <? 10)%Z then "0" +:+ Js.toString v else Js.toString v.
Proof.
  intros Hv. replace v with (Z.of_nat (Z.to_nat v)) by lia.
  assert (Hn : Z.to_nat v < 100) by lia.
  generalize dependent (Z.to_nat v). clear. intros n Hn.
  do 100 (destruct n as [|n]; [vm_compute; split; reflexivity |]).
  lia.
Qed.

(* ===================================================================== *)
(** * Where an accepted file is stored                                    *)
(* ===================================================================== *)

Ltac run_monad H :=
  cbv [bind ret throw log newDate randomUUID ensureDir writeFile arrayBuffer] in H;
  cbn [uuidsUsed clockReads trace validationErrors result uploadedFiles] in H;
  repeat match type of H with
         | context [if ?b then _ else _] => destruct b eqn:?
         end;
  try discriminate H.

Section Stored.

Variable env : Env.
Variable this : FileUploader.

Lemma saveFileToDisk_path (file : File) (s s' : State) (p : string) :
  saveFileToDisk env this file s = (Normal p, s') ->
  p = savedPath env this (clock env (clockReads s)) (uuids env (uuidsUsed s))
                (file_name file) /\
  In (EvWriteFile p (file_bytes file)) (trace s').
Proof.
  intros H. unfold saveFileToDisk, savedPath in *.
  destruct (useDateTimeSubDir (options this)), (useCurrentDir (options this));
    run_monad H; inversion H; subst; cbn [trace];
    (split; [reflexivity | apply in_or_app; right; left; reflexivity]).
Qed.

Lemma processFile_saved (pf r : ProcessedFile) (file : File) (s s' : State) :
  accepted this file ->
  saveFile (options this) = true ->
  processFile env this pf file s = (Normal r, s') ->
  uri r = savedPath env this (clock env (clockReads s)) (uuids env (uuidsUsed s))
                    (file_name file) /\
  url r = urlOf env (uri r) /\
  filename r = file_name file /\ size r = file_size file /\ type r = file_type file /\
  contents r = (if readFile (options this) then Some (file_bytes file) else contents pf) /\
  In (EvWriteFile (uri r) (file_bytes file)) (trace s').
Proof.
  intros [Hext Hsize] Hsave H. unfold processFile in H.
  rewrite Hext, Hsize, Hsave in H.
  destruct (readFile (options this));
    unfold bind at 1 in H; cbv [arrayBuffer bind log ret] in H;
    match type of H with
    | context [saveFileToDisk env this file ?s0] =>
        unfold bind in H;
        destruct (saveFileToDisk env this file s0) as [[p|e] s1] eqn:Hs;
        [| discriminate H];
        apply saveFileToDisk_path in Hs; destruct Hs as [Hp Hin]
    end;
    cbn [uuidsUsed clockReads] in Hp;
    inversion H; subst r s'; cbn [uri url filename size type contents];
    repeat split; auto.
Qed.

Lemma processFile_temp (pf r : ProcessedFile) (file : File) (s s' : State) :
  accepted this file ->
  saveFile (options this) = false ->
  processFile env this pf file s = (Normal r, s') ->
  uri r = Path.join [tempUploadsDir env;
                     uuids env (uuidsUsed s) +:+ "_" +:+ file_name file] /\
  url r = "" /\
  filename r = file_name file /\ size r = file_size file /\ type r = file_type file /\
  contents r = (if readFile (options this) then Some (file_bytes file) else contents pf) /\
  In (EvWriteFile (uri r) (file_bytes file)) (trace s').
Proof.
  intros [Hext Hsize] Hsave H. unfold processFile in H.
  rewrite Hext, Hsize, Hsave in H.
  destruct (readFile (options this));
    run_monad H; inversion H; subst r s';
    cbn [uri url filename size type contents trace];
    repeat split; auto; apply in_or_app; right; left; reflexivity.
Qed.

End Stored.

Lemma sepFree_app (a b : string) :
  Path.sepFree (a +:+ b) = Path.sepFree a && Path.sepFree b.
Proof.
  induction a as [|c a IH]; [reflexivity |].
  rewrite append_cons. simpl. rewrite IH, andb_assoc. reflexivity.
Qed.

(** An identifier, an underscore and a name make one proper segment as soon
    as neither holds a separator. *)
Lemma underscore_segment (u n : string) :
  Path.sepFree u = true -> Path.sepFree n = true ->
  Path.isSegment (u +:+ "_" +:+ n) = true.
Proof.
  intros Hu Hn. apply PathFacts.isSegment_spec. repeat split.
  - rewrite !sepFree_app, Hu, Hn. reflexivity.
  - destruct u; [| rewrite append_cons]; discriminate.
  - destruct u as [|c [|d u]]; rewrite ?append_cons, ?append_nil_l; discriminate.
  - destruct u as [|c [|d [|e u]]]; rewrite ?append_cons, ?append_nil_l;
      discriminate.
Qed.

Lemma tempUploadsDir_canon (env : Env) :
  Path.Canon (Path.isAbsolute (cwd env))
    ("temp_uploads" :: Path.stackOf (negb (Path.isAbsolute (cwd env))) (cwd env))
    (tempUploadsDir env).
Proof.
  apply (PathFacts.upload_canon (cwd env) ["temp_uploads"]).
  - constructor; [reflexivity | constructor].
  - discriminate.
Qed.

(** In the temporary directory a proper segment is appended as it is. *)
Lemma temp_join (env : Env) (seg : string) :
  Path.isSegment seg = true ->
  Path.join [tempUploadsDir env; seg] = tempUploadsDir env +:+ "/" +:+ seg.
Proof.
  intros Hseg. pose proof (tempUploadsDir_canon env) as Hc.
  destruct (PathFacts.canon_push _ _ _ _ Hc Hseg) as [_ Hj].
  destruct Hc as [_ Ht]. rewrite Hj, PathFacts.render_push by discriminate.
  rewrite <- Ht. reflexivity.
Qed.

(** C7 (amended).  With [saveFile = false], an accepted file whose name
    holds no separator, processed with an identifier that holds none, comes
    back with an empty [url] and with [uri] equal to the temporary directory,
    a slash, the identifier, an underscore and the original name.  Two such
    files with the same name get distinct [uri]s as soon as the identifiers
    drawn for them differ. *)
Theorem C7_temporary_path_is_unique
    (env : Env) (this : FileUploader)
    (pf1 pf2 r1 r2 : ProcessedFile) (f1 f2 : File) (s1 s2 s1' s2' : State) :
  saveFile (options this) = false ->
  accepted this f1 -> accepted this f2 ->
  file_name f1 = file_name f2 ->
  Path.sepFree (file_name f1) = true ->
  Path.sepFree (uuids env (uuidsUsed s1)) = true ->
  Path.sepFree (uuids env (uuidsUsed s2)) = true ->
  processFile env this pf1 f1 s1 = (Normal r1, s1') ->
  processFile env this pf2 f2 s2 = (Normal r2, s2') ->
  url r1 = "" /\ url r2 = "" /\
  uri r1 = Path.join [cwd env; "temp_uploads"] +:+ "/" +:+
           uuids env (uuidsUsed s1) +:+ "_" +:+ file_name f1 /\
  uri r2 = Path.join [cwd env; "temp_uploads"] +:+ "/" +:+
           uuids env (uuidsUsed s2) +:+ "_" +:+ file_name f2 /\
  (uuids env (uuidsUsed s1) <> uuids env (uuidsUsed s2) -> uri r1 <> uri r2).
Proof.
  intros Hsave Ha1 Ha2 Hname Hn Hu1 Hu2 H1 H2.
  destruct (processFile_temp env this pf1 r1 f1 s1 s1' Ha1 Hsave H1) as (U1 & L1 & _).
  destruct (processFile_temp env this pf2 r2 f2 s2 s2' Ha2 Hsave H2) as (U2 & L2 & _).
  assert (Hn2 : Path.sepFree (file_name f2) = true) by (rewrite <- Hname; exact Hn).
  rewrite temp_join in U1 by (apply underscore_segment; assumption).
  rewrite temp_join in U2 by (apply underscore_segment; assumption).
  repeat split; auto.
  intros Hne E. rewrite U1, U2, <- Hname in E. unfold tempUploadsDir in E.
  apply String.app_inj in E. apply (String.app_inj "/") in E.
  apply append_inv_tail in E. contradiction.
Qed.

(** C7, as stated, fails.  Two accepted files named "/../x" are processed in
    one request with [saveFile = false] and with the distinct
    identifiers id0 and id1: both end up at the same [uri], which is not of
    the form identifier, underscore, name. *)
Lemma C7_same_name_same_uri :
  let this := Scenario.temporaryOnly in
  let f := mkFile "/../x" 10 "text/plain" [] in
  let r := middleware Scenario.env this
             (Scenario.request [("first", ValFile f); ("second", ValFile f)])
             Scenario.returns initialState in
  accepted this f /\
  uuids Scenario.env 0 = "id0" /\ uuids Scenario.env 1 = "id1" /\
  fst r = Normal tt /\
  uri <$> (result (snd r) !! "first") = Some "/app/temp_uploads/x" /\
  uri <$> (result (snd r) !! "second") = Some "/app/temp_uploads/x" /\
  trace (snd r) =
    [ EvArrayBuffer f; EvWriteFile "/app/temp_uploads/x" [];
      EvArrayBuffer f; EvWriteFile "/app/temp_uploads/x" [];
      EvNext; EvNext ].
Proof. cbv zeta. unfold accepted. repeat split; vm_compute; reflexivity. Qed.

(* ===================================================================== *)
(** * The stored path and its URL                                         *)
(* ===================================================================== *)

Lemma replace_prefix (pat s : string) :
  String.prefix pat s = true -> Js.replace pat "" s = Js.drop (String.length pat) s.
Proof. intros H. destruct s; cbn [Js.replace]; rewrite H; reflexivity. Qed.

Lemma replaceAllChar_id (s : string) :
  noBackslash s = true -> Js.replaceAllChar "\" "/" s = s.
Proof.
  induction s as [|c s IH]; [reflexivity |]. simpl. intros H.
  apply andb_true_iff in H. destruct H as [Hc Hs].
  apply negb_true_iff in Hc. rewrite Hc, (IH Hs). reflexivity.
Qed.

Lemma noBackslash_drop (n : nat) (s : string) :
  noBackslash s = true -> noBackslash (Js.drop n s) = true.
Proof.
  revert s. induction n as [|n IH]; intros [|c s] H; simpl; auto.
  simpl in H. apply andb_true_iff in H. destruct H as [_ Hs]. auto.
Qed.

Lemma urlOf_spec (env : Env) (p : string) :
  String.prefix (cwd env) p = true -> noBackslash p = true ->
  urlOf env p = urlSpec (cwd env) p.
Proof.
  intros Hpre Hb. unfold urlOf, urlSpec, stripPrefix, ensureLeadingSlash.
  rewrite Hpre, (replace_prefix _ _ Hpre).
  rewrite (replaceAllChar_id _ (noBackslash_drop _ _ Hb)).
  destruct (Js.startsWith "/" (Js.drop (String.length (cwd env)) p)); reflexivity.
Qed.

Lemma urlOf_leading_slash (env : Env) (p : string) :
  Js.startsWith "/" (urlOf env p) = true.
Proof.
  unfold urlOf.
  set (u := Js.replaceAllChar "\" "/" (Js.replace (cwd env) "" p)).
  assert (H : forall v, Js.startsWith "/" v = true ->
                        Js.startsWith "/" (Js.encodeURI v) = true).
  { intros [|c v] Hv; [discriminate |].
    change (Js.startsWith "/" (String c v)) with (Path.isAbsolute (String c v)) in Hv.
    rewrite PathFacts.isAbsolute_cons in Hv. apply Ascii.eqb_eq in Hv. subst c.
    change (Js.encodeURI (String "/" v)) with (String "/" (Js.encodeURI v)).
    change (Path.isAbsolute (String "/" (Js.encodeURI v)) = true).
    rewrite PathFacts.isAbsolute_cons. reflexivity. }
  destruct (Js.startsWith "/" u) eqn:E; cbn [negb]; apply H; [exact E |].
  change (Path.isAbsolute (String "/" u) = true).
  rewrite PathFacts.isAbsolute_cons. reflexivity.
Qed.

Lemma dateChain_segments (now : DateTime) (uuid : string) :
  Path.isSegment uuid = true ->
  Forall (fun x => Path.isSegment x = true) (dateChain now uuid).
Proof.
  intros Hu. unfold dateChain.
  repeat (constructor;
          [first [exact Hu
                 | apply num_isSegment; [apply toString_num | apply toString_num]
                 | apply num_isSegment; [apply pad2_num | apply pad2_num]] |]).
  constructor.
Qed.

Lemma subDirTree_chain (now : DateTime) (uuid : string) :
  Path.isSegment uuid = true ->
  subDirTree now uuid = String.concat "/" (dateChain now uuid).
Proof.
  intros Hu. unfold subDirTree. apply PathFacts.join_segments.
  - apply (dateChain_segments now uuid Hu).
  - discriminate.
Qed.

(** C8 (amended).  With [saveFile] and [useDateTimeSubDir] set, an accepted
    file whose name is a proper path segment, stored with an identifier that
    is one too, gets as [uri] the path whose segments are those of the base
    directory followed by the year, the month, the day, the hour, the minute,
    the second, the identifier and the original name; the base directory is
    [path], joined under the working directory when [useCurrentDir] is set.
    Month, day, hour, minute and second take two characters each, and the
    original name is the last segment.  The [url] is the URL-encoding of that
    path after the first occurrence of the working directory is removed,
    backslashes are turned into slashes and a slash is put in front if there
    is none; it always starts with a slash, and when the path starts with
    the working directory and holds no backslash it is the URL-encoded path
    without that prefix. *)
Theorem C8_dated_path_and_url
    (env : Env) (this : FileUploader)
    (pf r : ProcessedFile) (file : File) (s s' : State) :
  let now := clock env (clockReads s) in
  let uuid := uuids env (uuidsUsed s) in
  let base := Path.baseDir (useCurrentDir (options this)) (cwd env) (path this) in
  saveFile (options this) = true ->
  useDateTimeSubDir (options this) = true ->
  accepted this file ->
  Path.isSegment (file_name file) = true ->
  Path.isSegment uuid = true ->
  validDate now ->
  processFile env this pf file s = (Normal r, s') ->
  uri r = (if Path.isAbsolute base then "/" else "") +:+
          String.concat "/"
            (Path.parts base ++
             [ Js.toString (getFullYear now);
               pad2 (getMonth now + 1); pad2 (getDate now); pad2 (getHours now);
               pad2 (getMinutes now); pad2 (getSeconds now);
               uuid; file_name file ]) /\
  Forall (fun x => String.length x = 2)
         [ pad2 (getMonth now + 1); pad2 (getDate now); pad2 (getHours now);
           pad2 (getMinutes now); pad2 (getSeconds now) ] /\
  Js.pop (Js.split "/" (uri r)) = Some (file_name file) /\
  url r = Js.encodeURI
            (let u := Js.replaceAllChar "\" "/" (Js.replace (cwd env) "" (uri r)) in
             if Js.startsWith "/" u then u else "/" +:+ u) /\
  Js.startsWith "/" (url r) = true /\
  (String.prefix (cwd env) (uri r) = true -> noBackslash (uri r) = true ->
   url r = urlSpec (cwd env) (uri r)).
Proof.
  intros now uuid base Hsave Hdated Hacc Hname Huuid Hdate Hrun.
  destruct (processFile_saved env this pf r file s s' Hacc Hsave Hrun)
    as (Huri & Hurl & _).
  fold now in Huri. fold uuid in Huri.
  unfold savedPath in Huri. rewrite Hdated, (subDirTree_chain now uuid Huuid) in Huri.
  pose proof (PathFacts.saved_path_canon (useCurrentDir (options this))
                (cwd env) (path this) (file_name file) (dateChain now uuid)
                (dateChain_segments now uuid Huuid) ltac:(discriminate) Hname) as Hc.
  cbv zeta in Hc. rewrite <- Huri in Hc. fold base in Hc.
  destruct Hc as [Hwf Hr].
  split; [| split; [| split; [| split; [| split]]]].
  - rewrite Hr. unfold Path.render.
    change (rev (file_name file :: rev (dateChain now uuid) ++ rev (Path.parts base)))
      with (rev (rev (dateChain now uuid) ++ rev (Path.parts base)) ++ [file_name file]).
    rewrite rev_app_distr, !rev_involutive, <- app_assoc. reflexivity.
  - destruct Hdate as (Hm & Hd & Hh & Hmi & Hs).
    repeat (constructor; [apply pad2_two_digits; lia |]). constructor.
  - rewrite Hr. eapply PathFacts.pop_split_render. exact Hwf.
  - rewrite Hurl. unfold urlOf. cbv zeta.
    destruct (Js.startsWith "/" _); reflexivity.
  - rewrite Hurl. apply urlOf_leading_slash.
  - intros Hpre Hb. rewrite Hurl. apply urlOf_spec; assumption.
Qed.

(** C8, as stated, fails.  The working directory is "/app".  A file named
    "../b.txt", stored under "uploads", is written one directory above the
    one made for it: the [uri] has no identifier segment and its last
    segment is not the original name.  A file named "b.txt", stored under
    "/data/app/files" without resolving that directory under the working
    directory, gets a [url] that is not the URL-encoded path: the working
    directory, which is no prefix of the path, has been cut out of its
    middle.  In both runs the file is written into a directory that
    [ensureDir] has created, or into the parent of one. *)
Lemma C8_url_and_last_segment :
  let f := mkFile "../b.txt" 10 "text/plain" [] in
  let r := processFiles Scenario.env Scenario.anyExtension [f] initialState in
  let data := mkFileUploader "/data/app/files"
                (mkOptions [] MAX_SAFE_INTEGER 1000 true false false true
                           (fun _ _ _ => None)) in
  let g := mkFile "b.txt" 10 "text/plain" [] in
  let q := processFiles Scenario.env data [g] initialState in
  (accepted Scenario.anyExtension f /\
   exists pf,
     fst r = Normal pf /\
     uri pf = "/app/uploads/2025/01/26/18/03/08/b.txt" /\
     Js.pop (Js.split "/" (uri pf)) = Some "b.txt" /\
     Js.pop (Js.split "/" (uri pf)) <> Some (file_name f) /\
     ~ In (uuids Scenario.env 0) (Js.split "/" (uri pf)) /\
     trace (snd r) =
       [ EvEnsureDir "/app/uploads/2025/01/26/18/03/08/id0";
         EvArrayBuffer f;
         EvWriteFile "/app/uploads/2025/01/26/18/03/08/b.txt" [] ]) /\
  (accepted data g /\
   exists pf,
     fst q = Normal pf /\
     uri pf = "/data/app/files/2025/01/26/18/03/08/id0/b.txt" /\
     String.prefix (cwd Scenario.env) (uri pf) = false /\
     url pf = "/data/files/2025/01/26/18/03/08/id0/b.txt" /\
     urlSpec (cwd Scenario.env) (uri pf)
       = "/data/app/files/2025/01/26/18/03/08/id0/b.txt" /\
     url pf <> urlSpec (cwd Scenario.env) (uri pf) /\
     trace (snd q) =
       [ EvEnsureDir "/data/app/files/2025/01/26/18/03/08/id0";
         EvArrayBuffer g;
         EvWriteFile "/data/app/files/2025/01/26/18/03/08/id0/b.txt" [] ]).
Proof.
  cbv zeta. split.
  - split; [split; vm_compute; reflexivity |].
    eexists. split; [vm_compute; reflexivity |].
    repeat split; try (vm_compute; reflexivity).
    + vm_compute. discriminate.
    + vm_compute. intros H.
      repeat (destruct H as [H | H]; [discriminate H |]). exact H.
  - split; [split; vm_compute; reflexivity |].
    eexists. split; [vm_compute; reflexivity |].
    repeat split; try (vm_compute; reflexivity); vm_compute; discriminate.
Qed.

(* ===================================================================== *)
(** * Several files under one field                                       *)
(* ===================================================================== *)

Lemma keepsResult_bind {A B} (m : M A) (k : A -> M B) :
  keepsResult m -> (forall a, keepsResult (k a)) -> keepsResult (bind m k).
Proof.
  intros Hm Hk s r s' H. unfold bind in H.
  destruct (m s) as [[a|e] s1] eqn:E.
  - rewrite (Hk a _ _ _ H). eapply Hm; eauto.
  - inversion H; subst. eapply Hm; eauto.
Qed.

Section LastFile.

Variable env : Env.
Variable this : FileUploader.

Lemma keepsResult_processFile (pf : ProcessedFile) (file : File) :
  keepsResult (processFile env this pf file).
Proof.
  intros s r s' H. unfold processFile, saveFileToDisk in H.
  destruct (extensionRejected this file), (sizeRejected this file),
    (readFile (options this)), (saveFile (options this)),
    (useDateTimeSubDir (options this)), (useCurrentDir (options this));
    run_monad H; inversion H; reflexivity.
Qed.

Lemma keepsResult_processLoop (files : list File) :
  forall pf, keepsResult (processLoop env this pf files).
Proof.
  induction files as [|f rest IH]; intros pf; simpl.
  - intros s r s' H. inversion H; reflexivity.
  - apply keepsResult_bind; [apply keepsResult_processFile | intros pf'; apply IH].
Qed.

(** What the loop body always does to the record. *)
Lemma processFile_fields (pf r : ProcessedFile) (file : File) (s s' : State) :
  processFile env this pf file s = (Normal r, s') ->
  filename r = file_name file /\ size r = file_size file /\
  type r = file_type file /\
  (readFile (options this) = false -> contents r = contents pf).
Proof.
  intros H.
  destruct (extensionRejected this file) eqn:Hext;
    [| destruct (sizeRejected this file) eqn:Hsize].
  - unfold processFile in H. rewrite Hext in H. run_monad H.
    inversion H; subst. repeat split; reflexivity.
  - unfold processFile in H. rewrite Hext, Hsize in H. run_monad H.
    inversion H; subst. repeat split; reflexivity.
  - destruct (saveFile (options this)) eqn:Hsave.
    + destruct (processFile_saved env this pf r file s s' (conj Hext Hsize) Hsave H)
        as (_ & _ & H1 & H2 & H3 & H4 & _).
      repeat split; auto. intros Hr. rewrite Hr in H4. exact H4.
    + destruct (processFile_temp env this pf r file s s' (conj Hext Hsize) Hsave H)
        as (_ & _ & H1 & H2 & H3 & H4 & _).
      repeat split; auto. intros Hr. rewrite Hr in H4. exact H4.
Qed.


Lemma processEntry_filesIn (key : string) (value : FormValue) :
  processEntry env this (key, value) =
  match filesIn value with
  | [] => ret tt
  | files => bind (processFiles env this files) (fun pf => setResult key pf)
  end.
Proof.
  destruct value as [f | items |]; simpl; try reflexivity.
  destruct (filesOf items); reflexivity.
Qed.

(** An entry that carries no file, or that belongs to another field, leaves
    the entry of [key] alone. *)
Lemma processEntry_other (key : string) (entry : string * FormValue) (s s' : State)
    (r : Completion unit) :
  (fst entry = key -> filesIn (snd entry) = []) ->
  processEntry env this entry s = (r, s') ->
  result s' !! key = result s !! key.
Proof.
  destruct entry as [k v]. cbn [fst snd]. intros Hk H.
  rewrite processEntry_filesIn in H.
  destruct (filesIn v) as [|f fs] eqn:E.
  - inversion H; reflexivity.
  - assert (Hne : k <> key) by (intros ->; specialize (Hk eq_refl); discriminate).
    unfold bind in H.
    destruct (processFiles env this (f :: fs) s) as [[pf|e] s1] eqn:P.
    + inversion H; subst; simpl. rewrite lookup_insert_ne by exact Hne.
      f_equal. eapply keepsResult_processLoop. exact P.
    + inversion H; subst. f_equal. eapply keepsResult_processLoop. exact P.
Qed.

Lemma processEntries_cons (e : string * FormValue) (rest : list (string * FormValue)) :
  processEntries env this (e :: rest) =
  bind (processEntry env this e) (fun _ => processEntries env this rest).
Proof. reflexivity. Qed.

Lemma processEntries_other (key : string) (entries : list (string * FormValue)) :
  (forall k v, In (k, v) entries -> k = key -> filesIn v = []) ->
  forall s r s',
    processEntries env this entries s = (r, s') ->
    result s' !! key = result s !! key.
Proof.
  induction entries as [|[k v] rest IH]; intros Hall s r s' H.
  - inversion H; reflexivity.
  - rewrite processEntries_cons in H. unfold bind in H.
    destruct (processEntry env this (k, v) s) as [[[]|e] s1] eqn:E.
    + rewrite (IH (fun k' v' Hin => Hall k' v' (or_intror Hin)) _ _ _ H).
      eapply processEntry_other; [| exact E]. simpl. intros ->.
      apply (Hall key v); [left; reflexivity | reflexivity].
    + inversion H; subst.
      eapply processEntry_other; [| exact E]. simpl. intros ->.
      apply (Hall key v); [left; reflexivity | reflexivity].
Qed.

Lemma processEntries_app (l1 l2 : list (string * FormValue)) (s s' : State) :
  processEntries env this (l1 ++ l2) s = (Normal tt, s') ->
  exists s1, processEntries env this l1 s = (Normal tt, s1) /\
             processEntries env this l2 s1 = (Normal tt, s').
Proof.
  revert s. induction l1 as [|e l1 IH]; intros s H.
  - exists s. split; [reflexivity | exact H].
  - change ((e :: l1) ++ l2) with (e :: (l1 ++ l2)) in H.
    rewrite processEntries_cons in *. unfold bind in H |- *.
    destruct (processEntry env this e s) as [[[]|err] s0]; [| discriminate].
    apply IH. exact H.
Qed.

Lemma grows_In (s s' : State) (e : Event) :
  grows s s' -> In e (trace s) -> In e (trace s').
Proof.
  intros ([evs [T _]] & _) Hin. rewrite T. apply in_or_app. left. exact Hin.
Qed.

End LastFile.


(* ===================================================================== *)
(** * The claims at concrete inputs                                       *)
(* ===================================================================== *)

(** C4, as stated, fails.  The file "big." is larger than the limit, but
    its empty extension is not in the allow-list: the loop body records the
    extension message and goes to the next file, so no message names the
    size and the limit. *)
Lemma C4_extension_error_hides_size_error :
  let f := mkFile "big." 5000 "text/plain" [] in
  let r := processFiles Scenario.env Scenario.jpgOnly [f] initialState in
  (maxFileSizeBytes (options Scenario.jpgOnly) < file_size f)%Z /\
  fst r = Normal (mkProcessedFile "big." 5000 "text/plain" None "" "") /\
  validationErrors (snd r) =
    [ "File extension  in big. is not allowed. Allowed extentions: jpg." ] /\
  ~ In (sizeMessage Scenario.jpgOnly f) (validationErrors (snd r)).
Proof.
  cbv zeta. split; [reflexivity |]. split; [vm_compute; reflexivity |].
  split; [vm_compute; reflexivity |].
  vm_compute. intros [H | []]. discriminate H.
Qed.

(** The amended C4 on the oversized a.jpg of the scenarios, followed by
    a second file. *)
Lemma C4_witness :
  extensionRejected Scenario.jpgOnly Scenario.big_jpg = false /\
  (maxFileSizeBytes (options Scenario.jpgOnly) < file_size Scenario.big_jpg)%Z /\
  processLoop Scenario.env Scenario.jpgOnly emptyProcessedFile
    [Scenario.big_jpg; Scenario.a_jpg] initialState =
  processLoop Scenario.env Scenario.jpgOnly
    (mkProcessedFile "a.jpg" 5000 "image/jpeg" None "" "") [Scenario.a_jpg]
    (mkState 0 0 []
       ["File size exceeds limit. File: a.jpg, Size: 5000 bytes, Limit: 1000 bytes. "]
       ∅ false).
Proof.
  split; [reflexivity |]. split; [reflexivity |].
  exact (proj2 (proj2 (C4_oversized_file_is_skipped Scenario.env Scenario.jpgOnly
                         emptyProcessedFile Scenario.big_jpg [Scenario.a_jpg]
                         initialState eq_refl eq_refl))).
Defined.

(** C5 on a request that has no content-length header. *)

(** The amended C6 on a field that carries two accepted files in one
    array value. *)

(** The amended C7 on the same file processed twice in a row. *)
Lemma C7_witness :
  let run1 := processFile Scenario.env Scenario.temporaryOnly emptyProcessedFile
                Scenario.a_jpg initialState in
  let run2 := processFile Scenario.env Scenario.temporaryOnly emptyProcessedFile
                Scenario.a_jpg (snd run1) in
  let r1 := mkProcessedFile "a.jpg" 500 "image/jpeg" None
              "/app/temp_uploads/id0_a.jpg" "" in
  let r2 := mkProcessedFile "a.jpg" 500 "image/jpeg" None
              "/app/temp_uploads/id1_a.jpg" "" in
  run1 = (Normal r1, snd run1) /\
  run2 = (Normal r2, snd run2) /\
  uuids Scenario.env (uuidsUsed initialState)
    <> uuids Scenario.env (uuidsUsed (snd run1)) /\
  uri r1 <> uri r2.
Proof.
  cbv zeta.
  set (s2 := snd (processFile Scenario.env Scenario.temporaryOnly emptyProcessedFile
                    Scenario.a_jpg initialState)).
  assert (H1 : processFile Scenario.env Scenario.temporaryOnly emptyProcessedFile
                 Scenario.a_jpg initialState
               = (Normal (mkProcessedFile "a.jpg" 500 "image/jpeg" None
                            "/app/temp_uploads/id0_a.jpg" ""), s2))
    by (vm_compute; reflexivity).
  assert (H2 : processFile Scenario.env Scenario.temporaryOnly emptyProcessedFile
                 Scenario.a_jpg s2
               = (Normal (mkProcessedFile "a.jpg" 500 "image/jpeg" None
                            "/app/temp_uploads/id1_a.jpg" ""),
                  snd (processFile Scenario.env Scenario.temporaryOnly emptyProcessedFile
                         Scenario.a_jpg s2)))
    by (vm_compute; reflexivity).
  assert (Hid : uuids Scenario.env (uuidsUsed initialState)
                <> uuids Scenario.env (uuidsUsed s2))
    by (vm_compute; discriminate).
  split; [exact H1 |]. split; [exact H2 |]. split; [exact Hid |].
  destruct (C7_temporary_path_is_unique Scenario.env Scenario.temporaryOnly
              emptyProcessedFile emptyProcessedFile _ _
              Scenario.a_jpg Scenario.a_jpg initialState s2 _ _
              eq_refl (conj eq_refl eq_refl) (conj eq_refl eq_refl)
              eq_refl eq_refl eq_refl eq_refl H1 H2)
    as (_ & _ & _ & _ & Hne).
  exact (Hne Hid).
Defined.

(** The amended C8 on a.jpg stored under /app/uploads. *)
Lemma C8_witness :
  let r := mkProcessedFile "a.jpg" 500 "image/jpeg" None
             "/app/uploads/2025/01/26/18/03/08/id0/a.jpg"
             "/uploads/2025/01/26/18/03/08/id0/a.jpg" in
  let run := processFile Scenario.env Scenario.jpgOnly emptyProcessedFile
               Scenario.a_jpg initialState in
  run = (Normal r, snd run) /\
  accepted Scenario.jpgOnly Scenario.a_jpg /\
  Path.isSegment (file_name Scenario.a_jpg) = true /\
  Path.isSegment (uuids Scenario.env (uuidsUsed initialState)) = true /\
  validDate (clock Scenario.env (clockReads initialState)) /\
  Js.pop (Js.split "/" (uri r)) = Some "a.jpg" /\
  url r = urlSpec "/app" (uri r).
Proof.
  cbv zeta.
  assert (Hrun : processFile Scenario.env Scenario.jpgOnly emptyProcessedFile
                   Scenario.a_jpg initialState
                 = (Normal (mkProcessedFile "a.jpg" 500 "image/jpeg" None
                              "/app/uploads/2025/01/26/18/03/08/id0/a.jpg"
                              "/uploads/2025/01/26/18/03/08/id0/a.jpg"),
                    snd (processFile Scenario.env Scenario.jpgOnly emptyProcessedFile
                           Scenario.a_jpg initialState)))
    by (vm_compute; reflexivity).
  assert (Hacc : accepted Scenario.jpgOnly Scenario.a_jpg) by (split; reflexivity).
  assert (Hdate : validDate (clock Scenario.env (clockReads initialState)))
    by (unfold validDate; simpl; lia).
  split; [exact Hrun |]. split; [exact Hacc |]. split; [reflexivity |].
  split; [reflexivity |]. split; [exact Hdate |].
  destruct (C8_dated_path_and_url Scenario.env Scenario.jpgOnly emptyProcessedFile
              _ Scenario.a_jpg initialState _
              eq_refl eq_refl Hacc eq_refl eq_refl Hdate Hrun)
    as (_ & _ & Hpop & _ & _ & Hspec).
  split; [exact Hpop |]. apply Hspec; reflexivity.
Defined.

(** C9, as stated, fails.  A validation error is collected and the
    aggregated error reaches [onError]; the callback throws, its error
    leaves the middleware, and the continuation is never invoked. *)
Lemma C9_next_skipped_when_onError_throws :
  let r := middleware Scenario.env Scenario.throwingOnError
             (Scenario.request [("photo", ValFile Scenario.big_jpg)])
             Scenario.returns initialState in
  validationErrors (snd r) =
    [ "File size exceeds limit. File: a.jpg, Size: 5000 bytes, Limit: 1000 bytes. " ] /\
  fst r = Throw (Error "handler failed") /\
  trace (snd r) =
    [ EvOnError (Error "Unprocessable Entity: File size exceeds limit. File: a.jpg, Size: 5000 bytes, Limit: 1000 bytes. ") ] /\
  nextCalls (snd r) = 0 /\
  ~ In EvNext (trace (snd r)).
Proof.
  cbv zeta. repeat split; try (vm_compute; reflexivity).
  vm_compute. intros [H | []]. discriminate H.
Qed.

(** The amended C9 on a request with an oversized file and a callback
    that returns. *)
Lemma C9_witness :
  let request := Scenario.request [("photo", ValFile Scenario.big_jpg)] in
  let entries := [("photo", ValFile Scenario.big_jpg)] in
  let s1 := snd (processEntries Scenario.env Scenario.jpgOnly entries initialState) in
  preconditionError Scenario.jpgOnly request = None /\
  formData request = Normal entries /\
  processEntries Scenario.env Scenario.jpgOnly entries initialState = (Normal tt, s1) /\
  validationErrors s1 <> [] /\
  nextCalls (snd (middleware Scenario.env Scenario.jpgOnly request Scenario.returns
                    initialState)) = 1.
Proof.
  cbv zeta.
  set (s1 := snd (processEntries Scenario.env Scenario.jpgOnly
                    [("photo", ValFile Scenario.big_jpg)] initialState)).
  assert (Hproc : processEntries Scenario.env Scenario.jpgOnly
                    [("photo", ValFile Scenario.big_jpg)] initialState = (Normal tt, s1))
    by (vm_compute; reflexivity).
  assert (Hne : validationErrors s1 <> []) by (vm_compute; discriminate).
  split; [reflexivity |]. split; [reflexivity |]. split; [exact Hproc |].
  split; [exact Hne |].
  destruct (C9_aggregated_error_then_next Scenario.env Scenario.jpgOnly
              (Scenario.request [("photo", ValFile Scenario.big_jpg)])
              Scenario.returns _ initialState s1 eq_refl eq_refl Hproc Hne)
    as [Hok _].
  destruct (Hok eq_refl) as (r & Hm & Hn). rewrite Hm. exact Hn.
Defined.

(** C10 on the successful upload of a.jpg. *)

(* ===================================================================== *)
(** * The middleware on every request                                     *)
(* ===================================================================== *)

Lemma filter_fileEvents_onError (evs : list Event) :
  forallb fileEvent evs = true -> List.filter isOnError evs = [].
Proof.
  induction evs as [|e evs IH]; simpl; intros H; auto.
  apply andb_true_iff in H. destruct H as [He Hr].
  destruct e; simpl in *; try discriminate; auto.
Qed.

Lemma grows_errorCalls (s s' : State) : grows s s' -> errorCalls s' = errorCalls s.
Proof.
  intros ([evs [T F]] & _ & _). unfold errorCalls.
  rewrite T, List.filter_app, (filter_fileEvents_onError evs F), app_nil_r.
  reflexivity.
Qed.

Lemma errorCalls_logged_next (s : State) : errorCalls (logged EvNext s) = errorCalls s.
Proof.
  unfold errorCalls, logged; simpl. rewrite List.filter_app, length_app. simpl. lia.
Qed.

Lemma errorCalls_logged_onError (e : JsError) (s : State) :
  errorCalls (logged (EvOnError e) s) = S (errorCalls s).
Proof.
  unfold errorCalls, logged; simpl. rewrite List.filter_app, length_app. simpl. lia.
Qed.

Section EveryRequest.

Variable env : Env.
Variable this : FileUploader.

(** The two ways out of the [try] block: an exception thrown before the
    result is attached, after file events and error messages only; or the
    first [next()], invoked right after the attachment, which presupposes an
    empty error list. *)
Lemma tryBlock_cases (request : Request) (next : State -> Outcome)
    (s s0 : State) (r0 : Completion unit) :
  tryBlock env this request next s = (r0, s0) ->
  (exists e, r0 = Throw e /\ grows s s0) \/
  (exists s1,
     grows s s1 /\ validationErrors s1 = [] /\
     preconditionError this request = None /\
     s0 = logged EvNext (attached s1) /\
     r0 = match next s0 with None => Normal tt | Some e => Throw e end).
Proof.
  intros H.
  destruct (preconditionError this request) as [e|] eqn:Hpre.
  { unfold tryBlock in H. rewrite Hpre in H. inversion H; subst.
    left. exists e. split; [reflexivity | apply grows_refl]. }
  destruct (formData request) as [entries | e] eqn:Hform.
  2:{ unfold tryBlock in H. rewrite Hpre in H. unfold bind at 1 in H.
      rewrite Hform in H. inversion H; subst.
      left. exists e. split; [reflexivity | apply grows_refl]. }
  destruct (processEntries env this entries s) as [[[]|e] s1] eqn:Hproc.
  2:{ unfold tryBlock in H. rewrite Hpre in H. unfold bind at 1 in H.
      rewrite Hform in H. unfold bind at 1 in H. rewrite Hproc in H.
      inversion H; subst. left. exists e. split; [reflexivity |].
      eapply growing_processEntries; eauto. }
  pose proof (growing_processEntries env this entries _ _ _ Hproc) as Hg.
  rewrite (tryBlock_processed env this request next entries s s1 Hpre Hform Hproc) in H.
  destruct (validationErrors s1) as [|m ms] eqn:Hv.
  - right. exists s1. cbn [length Nat.ltb Nat.leb] in H. rewrite call_eq in H.
    destruct (next (logged EvNext (attached s1))) eqn:Hn;
      inversion H; subst;
      (split; [exact Hg | split; [exact Hv | split; [reflexivity |
         split; [reflexivity | rewrite Hn; reflexivity]]]]).
  - cbn [length Nat.ltb Nat.leb] in H. inversion H; subst.
    left. eexists. split; [reflexivity | exact Hg].
Qed.

End EveryRequest.

Lemma middleware_calls
    (env : Env) (this : FileUploader) (request : Request)
    (next : State -> Outcome) (s s' : State) (r : Completion unit) :
  middleware env this request next s = (r, s') ->
  nextCalls s <= nextCalls s' <= nextCalls s + 2 /\
  errorCalls s <= errorCalls s' <= errorCalls s + 1 /\
  (r = Normal tt -> nextCalls s + 1 <= nextCalls s') /\
  (nextCalls s' = nextCalls s + 2 -> uploadedFiles s' = true).
Proof.
  intros H.
  destruct (tryBlock env this request next s) as [r0 s0] eqn:Htry.
  destruct (tryBlock_cases env this request next s s0 r0 Htry)
    as [(e & -> & Hg) | (s1 & Hg & Hv & Hpre & Hs0 & Hr0)].
  - rewrite (middleware_throw env this request next s s0 e Htry) in H.
    unfold catchThenNext in H.
    pose proof (grows_nextCalls _ _ Hg) as Hn.
    pose proof (grows_errorCalls _ _ Hg) as He.
    destruct (onError (options this) request e (logged (EvOnError e) s0)).
    + inversion H; subst. rewrite nextCalls_logged_onError, errorCalls_logged_onError.
      repeat split; try lia; try discriminate; auto.
    + rewrite call_eq in H.
      destruct (next (logged EvNext (logged (EvOnError e) s0)));
        inversion H; subst;
        rewrite nextCalls_logged_next, nextCalls_logged_onError,
          errorCalls_logged_next, errorCalls_logged_onError;
        repeat split; try lia; try discriminate; auto.
  - pose proof (grows_nextCalls _ _ Hg) as Hn.
    pose proof (grows_errorCalls _ _ Hg) as He.
    assert (Hn0 : nextCalls s0 = S (nextCalls s)).
    { rewrite Hs0, nextCalls_logged_next. unfold nextCalls in *. simpl. congruence. }
    assert (He0 : errorCalls s0 = errorCalls s).
    { rewrite Hs0, errorCalls_logged_next. unfold errorCalls in *. simpl. congruence. }
    assert (Hu0 : uploadedFiles s0 = true) by (rewrite Hs0; reflexivity).
    destruct (next s0) as [e1|] eqn:Hnext; subst r0.
    + rewrite (middleware_throw env this request next s s0 e1 Htry) in H.
      unfold catchThenNext in H.
      destruct (onError (options this) request e1 (logged (EvOnError e1) s0)).
      * inversion H; subst. rewrite nextCalls_logged_onError, errorCalls_logged_onError.
        repeat split; try lia; try discriminate; auto.
      * rewrite call_eq in H.
        destruct (next (logged EvNext (logged (EvOnError e1) s0)));
          inversion H; subst;
          rewrite nextCalls_logged_next, nextCalls_logged_onError,
            errorCalls_logged_next, errorCalls_logged_onError;
          repeat split; try lia; try discriminate; auto.
    + rewrite (middleware_normal env this request next s s0 Htry) in H.
      rewrite call_eq in H.
      destruct (next (logged EvNext s0));
        inversion H; subst;
        rewrite nextCalls_logged_next, errorCalls_logged_next;
        repeat split; try lia; try discriminate; auto.
Qed.

(** X1.  Whatever the request and the callbacks, one run of the middleware
    invokes [next] at most twice and [onError] at most once; a run that
    completes has invoked [next] at least once; and [next] is only invoked
    twice when the result has been attached to the context. *)
Theorem middleware_call_bounds
    (env : Env) (this : FileUploader) (request : Request)
    (next : State -> Outcome) (s : State) :
  let out := middleware env this request next s in
  nextCalls s <= nextCalls (snd out) <= nextCalls s + 2 /\
  errorCalls s <= errorCalls (snd out) <= errorCalls s + 1 /\
  (fst out = Normal tt -> nextCalls s + 1 <= nextCalls (snd out)) /\
  (nextCalls (snd out) = nextCalls s + 2 -> uploadedFiles (snd out) = true).
Proof.
  intros out. apply (middleware_calls env this request next s (snd out) (fst out)).
  unfold out. destruct (middleware env this request next s); reflexivity.
Qed.

(** What the [catch] block and the final [next()] leave untouched. *)
Lemma catchThenNext_frame (this : FileUploader) (request : Request)
    (next : State -> Outcome) (e : JsError) (s : State) :
  let out := catchThenNext this request next e s in
  validationErrors (snd out) = validationErrors s /\
  uploadedFiles (snd out) = uploadedFiles s /\
  result (snd out) = result s /\
  errorCalls (snd out) = S (errorCalls s).
Proof.
  unfold catchThenNext.
  destruct (onError (options this) request e (logged (EvOnError e) s)).
  - simpl. repeat split; auto. apply errorCalls_logged_onError.
  - rewrite call_eq.
    destruct (next (logged EvNext (logged (EvOnError e) s))); simpl;
      repeat split; auto;
      rewrite errorCalls_logged_next; apply errorCalls_logged_onError.
Qed.

(** X2.  The result is attached to the context only by a request that
    passes the preconditions and ends with an empty error list, which also
    means that the error list was empty when the request came in. *)
Theorem attached_only_without_errors
    (env : Env) (this : FileUploader) (request : Request)
    (next : State -> Outcome) (s : State) :
  let out := middleware env this request next s in
  uploadedFiles s = false ->
  uploadedFiles (snd out) = true ->
  preconditionError this request = None /\
  validationErrors s = [] /\
  validationErrors (snd out) = [].
Proof.
  intros out Hu Hatt. unfold out in *. clear out.
  destruct (tryBlock env this request next s) as [r0 s0] eqn:Htry.
  destruct (tryBlock_cases env this request next s s0 r0 Htry)
    as [(e & -> & Hg) | (s1 & Hg & Hv & Hpre & Hs0 & Hr0)].
  - rewrite (middleware_throw env this request next s s0 e Htry) in Hatt.
    destruct (catchThenNext_frame this request next e s0) as (_ & Hk & _).
    rewrite Hk in Hatt. destruct Hg as (_ & _ & Hu0). congruence.
  - destruct Hg as (_ & [errs Herrs] & _).
    assert (Hs : validationErrors s = []).
    { rewrite Hv in Herrs. symmetry in Herrs. apply app_eq_nil in Herrs. tauto. }
    assert (Hv0 : validationErrors s0 = []) by (rewrite Hs0; exact Hv).
    split; [exact Hpre |]. split; [exact Hs |].
    destruct (next s0) as [e1|] eqn:Hnext; subst r0.
    + rewrite (middleware_throw env this request next s s0 e1 Htry).
      destruct (catchThenNext_frame this request next e1 s0) as (Hk & _).
      rewrite Hk. exact Hv0.
    + rewrite (middleware_normal env this request next s s0 Htry), call_eq.
      destruct (next (logged EvNext s0)); exact Hv0.
Qed.

(** X3.  Once the error list of the instance is not empty, every later run
    of the middleware, whatever the request, invokes [onError] exactly once,
    attaches nothing and keeps all the messages that were in the list. *)
Theorem errors_are_never_cleared
    (env : Env) (this : FileUploader) (request : Request)
    (next : State -> Outcome) (s : State) :
  let out := middleware env this request next s in
  validationErrors s <> [] ->
  errorCalls (snd out) = S (errorCalls s) /\
  uploadedFiles (snd out) = uploadedFiles s /\
  exists more, validationErrors (snd out) = validationErrors s ++ more.
Proof.
  intros out Hne. unfold out in *. clear out.
  destruct (tryBlock env this request next s) as [r0 s0] eqn:Htry.
  destruct (tryBlock_cases env this request next s s0 r0 Htry)
    as [(e & -> & Hg) | (s1 & Hg & Hv & _)].
  - rewrite (middleware_throw env this request next s s0 e Htry).
    destruct (catchThenNext_frame this request next e s0) as (Hk & Hu & _ & He).
    rewrite Hk, Hu, He. pose proof (grows_errorCalls _ _ Hg) as Hec.
    destruct Hg as (_ & Herrs & Hu0). rewrite Hec, Hu0. auto.
  - destruct Hg as (_ & [errs Herrs] & _). rewrite Hv in Herrs.
    symmetry in Herrs. apply app_eq_nil in Herrs. tauto.
Qed.

(** X4.  When the preconditions hold, an exception of [formData()] or of the
    processing of an entry goes to [onError] as it is, in place of the
    aggregated error, whatever messages the error list holds by then. *)
Theorem operational_error_reaches_onError
    (env : Env) (this : FileUploader) (request : Request)
    (next : State -> Outcome) (s s1 : State) (e : JsError) :
  preconditionError this request = None ->
  (formData request = Throw e /\ s1 = s) \/
  (exists entries, formData request = Normal entries /\
                   processEntries env this entries s = (Throw e, s1)) ->
  middleware env this request next s = catchThenNext this request next e s1.
Proof.
  intros Hpre H. apply middleware_throw. unfold tryBlock. rewrite Hpre.
  unfold bind at 1.
  destruct H as [[Hform ->] | (entries & Hform & Hproc)]; rewrite Hform.
  - reflexivity.
  - unfold bind at 1. rewrite Hproc. reflexivity.
Qed.

(** X5.  When the upload has succeeded and the first [next()] throws, the
    error of the downstream middleware is handed to [onError], and the
    middleware goes on to the final [next()]: downstream runs a second time
    if [onError] returns. *)
Theorem downstream_error_reaches_onError
    (env : Env) (this : FileUploader) (request : Request)
    (next : State -> Outcome) (entries : list (string * FormValue))
    (s s1 : State) (e : JsError) :
  preconditionError this request = None ->
  formData request = Normal entries ->
  processEntries env this entries s = (Normal tt, s1) ->
  validationErrors s1 = [] ->
  next (logged EvNext (attached s1)) = Some e ->
  middleware env this request next s
    = catchThenNext this request next e (logged EvNext (attached s1)).
Proof.
  intros Hpre Hform Hproc Hv Hnext. apply middleware_throw.
  rewrite (tryBlock_processed env this request next entries s s1 Hpre Hform Hproc).
  rewrite Hv. cbn [length Nat.ltb Nat.leb]. rewrite call_eq, Hnext. reflexivity.
Qed.

(* ===================================================================== *)
(** * Accounting for the files of one field                               *)
(* ===================================================================== *)

Section Accounting.

Variable env : Env.
Variable this : FileUploader.

Lemma acceptedb_spec (file : File) :
  acceptedb this file = true <-> accepted this file.
Proof.
  unfold acceptedb, accepted. rewrite andb_true_iff, !negb_true_iff. tauto.
Qed.

(** A rejected file: one message, nothing else. *)
Lemma processFile_rejected (pf : ProcessedFile) (file : File) (s : State) :
  acceptedb this file = false ->
  exists msg,
    rejectionMessage this file = Some msg /\
    processFile env this pf file s =
      (Normal (mkProcessedFile (file_name file) (file_size file) (file_type file)
                               (contents pf) (uri pf) (url pf)),
       mkState (uuidsUsed s) (clockReads s) (trace s)
               (validationErrors s ++ [msg]) (result s) (uploadedFiles s)).
Proof.
  unfold acceptedb, rejectionMessage, processFile. intros H.
  destruct (extensionRejected this file); [eexists; split; reflexivity |].
  destruct (sizeRejected this file); [eexists; split; reflexivity |].
  discriminate.
Qed.

Ltac count_writes :=
  unfold writeCount; cbn [trace];
  rewrite ?List.filter_app, ?length_app; cbn [List.filter isWrite length]; lia.

(** An accepted file that is stored: no message, one write, and one
    identifier unless the file goes to an undated directory. *)
Lemma processFile_accepted_effects (pf r : ProcessedFile) (file : File) (s s' : State) :
  acceptedb this file = true ->
  processFile env this pf file s = (Normal r, s') ->
  validationErrors s' = validationErrors s /\
  writeCount s' = S (writeCount s) /\
  rejectionMessage this file = None /\
  uuidsUsed s' =
    uuidsUsed s +
    (if saveFile (options this) && negb (useDateTimeSubDir (options this))
     then 0 else 1).
Proof.
  intros Hacc H. apply acceptedb_spec in Hacc. destruct Hacc as [Hext Hsize].
  unfold rejectionMessage. rewrite Hext, Hsize.
  unfold processFile, saveFileToDisk in H. rewrite Hext, Hsize in H.
  destruct (readFile (options this)), (saveFile (options this)),
    (useDateTimeSubDir (options this)), (useCurrentDir (options this));
    run_monad H; inversion H; subst;
    cbn [validationErrors uuidsUsed andb negb];
    (split; [reflexivity | split; [count_writes | split; [reflexivity | lia]]]).
Qed.

Lemma processLoop_accounting (files : list File) :
  forall pf r s s',
    processLoop env this pf files s = (Normal r, s') ->
    validationErrors s' = validationErrors s ++ omap (rejectionMessage this) files /\
    writeCount s' = writeCount s + length (List.filter (acceptedb this) files).
Proof.
  induction files as [|f rest IH]; intros pf r s s' H.
  - inversion H; subst. rewrite app_nil_r. simpl. split; [reflexivity | lia].
  - change (processLoop env this pf (f :: rest))
      with (bind (processFile env this pf f) (fun pf' => processLoop env this pf' rest)) in H.
    unfold bind in H.
    destruct (processFile env this pf f s) as [[pf1|e] s1] eqn:E; [| discriminate].
    destruct (IH _ _ _ _ H) as [Hv Hw].
    destruct (acceptedb this f) eqn:Hacc.
    + destruct (processFile_accepted_effects _ _ _ _ _ Hacc E) as (V & W & M & _).
      cbn [omap list_omap List.filter]. rewrite M, Hacc, Hv, Hw, V, W.
      split; [reflexivity | simpl; lia].
    + destruct (processFile_rejected pf f s Hacc) as (msg & M & P).
      rewrite P in E. inversion E; subst.
      cbn [omap list_omap List.filter]. rewrite M, Hacc, Hv, Hw.
      cbn [validationErrors]. rewrite <- app_assoc.
      split; [reflexivity | unfold writeCount; reflexivity].
Qed.

(** The loop only throws the error of a file-system call that fails. *)


End Accounting.


(** X7.  When the files of a field are processed to the end, the error
    list has gained one message per rejected file, in the order of the files
    (the extension message if the extension check rejects the file, the size
    message otherwise), and exactly one file has been written per accepted
    file. *)
Theorem processFiles_accounting
    (env : Env) (this : FileUploader) (files : list File)
    (s s' : State) (r : ProcessedFile) :
  processFiles env this files s = (Normal r, s') ->
  validationErrors s' = validationErrors s ++ omap (rejectionMessage this) files /\
  writeCount s' = writeCount s + length (List.filter (acceptedb this) files).
Proof. apply processLoop_accounting. Qed.

(** X8.  When every file of a field is rejected, processing cannot fail:
    nothing is read or written, no identifier is drawn, and the record that
    comes back has the name, the size and the type of the last file, no
    contents, and an empty [uri] and [url]. *)
Theorem all_rejected_leaves_no_trace
    (env : Env) (this : FileUploader) (files : list File) (s : State) :
  Forall (fun f => acceptedb this f = false) files ->
  processFiles env this files s =
    (Normal (match last files with
             | Some f => mkProcessedFile (file_name f) (file_size f) (file_type f)
                                         None "" ""
             | None => emptyProcessedFile
             end),
     mkState (uuidsUsed s) (clockReads s) (trace s)
             (validationErrors s ++ omap (rejectionMessage this) files)
             (result s) (uploadedFiles s)).
Proof.
  intros Hall. unfold processFiles.
  assert (G : forall pf s,
             contents pf = None -> uri pf = "" -> url pf = "" ->
             processLoop env this pf files s =
               (Normal (match last files with
                        | Some f => mkProcessedFile (file_name f) (file_size f)
                                      (file_type f) None "" ""
                        | None => pf
                        end),
                mkState (uuidsUsed s) (clockReads s) (trace s)
                        (validationErrors s ++ omap (rejectionMessage this) files)
                        (result s) (uploadedFiles s))).
  { clear s. induction Hall as [|f rest Hf Hrest IH]; intros pf s Hc Hu Hl.
    - simpl. rewrite app_nil_r. destruct s; reflexivity.
    - change (processLoop env this pf (f :: rest))
        with (bind (processFile env this pf f)
                   (fun pf' => processLoop env this pf' rest)).
      unfold bind. destruct (processFile_rejected env this pf f s Hf) as (msg & M & P).
      rewrite P, IH by (cbn [contents uri url]; assumption).
      cbn [omap list_omap]. rewrite M.
      cbn [uuidsUsed clockReads trace validationErrors result uploadedFiles].
      rewrite <- app_assoc, Hc, Hu, Hl.
      destruct rest as [|g rest']; [reflexivity |].
      change (last (f :: g :: rest')) with (last (g :: rest')).
      destruct (last (g :: rest')) eqn:L; [reflexivity |].
      apply last_None in L. discriminate. }
  apply G; reflexivity.
Qed.

(* ===================================================================== *)
(** * Collisions and their absence                                        *)
(* ===================================================================== *)

(** X9.  Without the date-and-time directories, the path of a stored file
    depends on its name alone: two accepted files with the same name are
    written to the same path, whatever the state they are processed in,
    and neither the clock nor the identifier source is consulted. *)
Theorem undated_same_name_same_path
    (env : Env) (this : FileUploader)
    (pf1 pf2 r1 r2 : ProcessedFile) (f1 f2 : File) (s1 s2 s1' s2' : State) :
  saveFile (options this) = true ->
  useDateTimeSubDir (options this) = false ->
  accepted this f1 -> accepted this f2 ->
  file_name f1 = file_name f2 ->
  processFile env this pf1 f1 s1 = (Normal r1, s1') ->
  processFile env this pf2 f2 s2 = (Normal r2, s2') ->
  uri r1 = uri r2 /\
  uri r1 = Path.join [ (if useCurrentDir (options this)
                        then Path.join [cwd env; path this] else path this);
                       file_name f1 ] /\
  uuidsUsed s1' = uuidsUsed s1 /\ clockReads s1' = clockReads s1.
Proof.
  intros Hsave Hdated Ha1 Ha2 Hname H1 H2.
  destruct (processFile_saved env this _ _ _ _ _ Ha1 Hsave H1) as (U1 & _).
  destruct (processFile_saved env this _ _ _ _ _ Ha2 Hsave H2) as (U2 & _).
  unfold savedPath in U1, U2. rewrite Hdated in U1, U2. cbv zeta in U1, U2.
  split; [rewrite U1, U2, Hname; reflexivity |]. split; [exact U1 |].
  apply acceptedb_spec in Ha1.
  destruct (processFile_accepted_effects env this _ _ _ _ _ Ha1 H1) as (_ & _ & _ & Hu).
  rewrite Hsave, Hdated in Hu. simpl in Hu. split; [lia |].
  clear - H1 Hsave Hdated Ha1. apply acceptedb_spec in Ha1. destruct Ha1 as [Hext Hsize].
  unfold processFile, saveFileToDisk in H1. rewrite Hext, Hsize, Hsave, Hdated in H1.
  destruct (readFile (options this)), (useCurrentDir (options this));
    run_monad H1; inversion H1; reflexivity.
Qed.

Lemma canon_inj (abs : bool) (st1 st2 : list string) (d : string) :
  Path.Canon abs st1 d -> Path.Canon abs st2 d -> st1 = st2.
Proof.
  intros H1 H2.
  rewrite <- (PathFacts.canon_stackOf abs st1 d H1).
  apply (PathFacts.canon_stackOf abs st2 d H2).
Qed.

(** X10.  With the date-and-time directories, two accepted files whose names
    are proper path segments are stored at different paths as soon as the
    identifiers drawn for them differ, even when the names and the dates
    are the same. *)
Theorem dated_paths_are_distinct
    (env : Env) (this : FileUploader)
    (pf1 pf2 r1 r2 : ProcessedFile) (f1 f2 : File) (s1 s2 s1' s2' : State) :
  saveFile (options this) = true ->
  useDateTimeSubDir (options this) = true ->
  accepted this f1 -> accepted this f2 ->
  Path.isSegment (file_name f1) = true ->
  Path.isSegment (file_name f2) = true ->
  Path.isSegment (uuids env (uuidsUsed s1)) = true ->
  Path.isSegment (uuids env (uuidsUsed s2)) = true ->
  uuids env (uuidsUsed s1) <> uuids env (uuidsUsed s2) ->
  processFile env this pf1 f1 s1 = (Normal r1, s1') ->
  processFile env this pf2 f2 s2 = (Normal r2, s2') ->
  uri r1 <> uri r2.
Proof.
  intros Hsave Hdated Ha1 Ha2 Hn1 Hn2 Hu1 Hu2 Hne H1 H2 E.
  destruct (processFile_saved env this _ _ _ _ _ Ha1 Hsave H1) as (U1 & _).
  destruct (processFile_saved env this _ _ _ _ _ Ha2 Hsave H2) as (U2 & _).
  unfold savedPath in U1, U2. rewrite Hdated in U1, U2.
  rewrite (subDirTree_chain _ _ Hu1) in U1. rewrite (subDirTree_chain _ _ Hu2) in U2.
  pose proof (PathFacts.saved_path_canon (useCurrentDir (options this))
                (cwd env) (path this) (file_name f1) _
                (dateChain_segments (clock env (clockReads s1)) _ Hu1)
                ltac:(discriminate) Hn1) as C1.
  pose proof (PathFacts.saved_path_canon (useCurrentDir (options this))
                (cwd env) (path this) (file_name f2) _
                (dateChain_segments (clock env (clockReads s2)) _ Hu2)
                ltac:(discriminate) Hn2) as C2.
  cbv zeta in C1, C2. rewrite <- U1 in C1. rewrite <- U2, <- E in C2.
  pose proof (canon_inj _ _ _ _ C1 C2) as Hst.
  unfold dateChain in Hst. simpl in Hst. inversion Hst. contradiction.
Qed.

(* ===================================================================== *)
(** * The extension of a file name                                        *)
(* ===================================================================== *)

Lemma split_last (c : ascii) (s : string) :
  exists pre ext, Js.split c s = pre ++ [ext].
Proof.
  destruct (Js.split c s) as [|h t] eqn:E using rev_ind.
  - destruct (PathFacts.split_nonnil c s E).
  - eauto.
Qed.

Lemma split_all_charFree (c : ascii) (s : string) :
  Forall (fun x => charFree c x = true) (Js.split c s).
Proof.
  induction s as [|d s IH]; simpl.
  - constructor; [reflexivity | constructor].
  - destruct (Ascii.eqb d c) eqn:E.
    + constructor; [reflexivity | exact IH].
    + destruct (Js.split c s) as [|h t].
      * constructor; [unfold charFree; simpl; rewrite E; reflexivity | constructor].
      * inversion IH; subst. constructor; [| assumption].
        unfold charFree in *. simpl. rewrite E. simpl. assumption.
Qed.

Lemma concat_cons_c (c : ascii) (x y : string) (l : list string) :
  String.concat (String c "") (x :: y :: l)
  = x +:+ String c (String.concat (String c "") (y :: l)).
Proof. reflexivity. Qed.

(** [s.split(c).join(c)] gives [s] back. *)
Lemma concat_split (c : ascii) (s : string) :
  String.concat (String c "") (Js.split c s) = s.
Proof.
  induction s as [|d s IH]; [reflexivity |]. simpl.
  destruct (Js.split c s) as [|h t] eqn:E; [destruct (PathFacts.split_nonnil c s E) |].
  destruct (Ascii.eqb d c) eqn:Ed.
  - apply Ascii.eqb_eq in Ed. subst d. rewrite concat_cons_c, IH. reflexivity.
  - destruct t as [|h' t].
    + simpl in *. congruence.
    + rewrite concat_cons_c in *. rewrite append_cons. congruence.
Qed.

Lemma concat_snoc_c (c : ascii) (l : list string) (x : string) :
  l <> [] ->
  String.concat (String c "") (l ++ [x])
  = String.concat (String c "") l +:+ String c x.
Proof.
  induction l as [|a l IH]; intros Hne; [congruence |].
  destruct l as [|b l].
  - reflexivity.
  - change ((a :: b :: l) ++ [x]) with (a :: b :: (l ++ [x])).
    rewrite !concat_cons_c. change (b :: l ++ [x]) with ((b :: l) ++ [x]).
    rewrite IH by discriminate. rewrite append_assoc, append_cons. reflexivity.
Qed.

Lemma charFree_split (c : ascii) (s : string) :
  charFree c s = true -> Js.split c s = [s].
Proof.
  induction s as [|d s IH]; [reflexivity |]. unfold charFree. simpl.
  intros H. apply andb_true_iff in H. destruct H as [Hd Hs].
  apply negb_true_iff in Hd. rewrite Hd, (IH Hs). reflexivity.
Qed.

(** The last piece of the split: it holds no dot, and the name is that piece
    alone or a stem, a dot and that piece. *)
Lemma extensionOf_parts (name : string) :
  charFree "." (extensionOf name) = true /\
  (name = extensionOf name \/
   exists stem, name = stem +:+ "." +:+ extensionOf name) /\
  (charFree "." name = true -> extensionOf name = name).
Proof.
  unfold extensionOf, Js.pop.
  destruct (split_last "." name) as (pre & ext & Hs).
  pose proof (split_all_charFree "." name) as Hall.
  pose proof (concat_split "." name) as Hc.
  rewrite Hs in *. rewrite last_snoc. simpl. split; [| split].
  - apply Forall_app in Hall. destruct Hall as [_ Hx]. inversion Hx. assumption.
  - destruct pre as [|p pre].
    + left. simpl in Hc. congruence.
    + right. rewrite concat_snoc_c in Hc by discriminate.
      eexists. symmetry. exact Hc.
  - intros Hfree. rewrite (charFree_split "." name Hfree) in Hs.
    destruct pre as [|p pre]; [inversion Hs; reflexivity |].
    destruct pre; discriminate.
Qed.

Lemma extension_empty_iff (name : string) :
  extensionOf name = "" <-> name = "" \/ exists stem, name = stem +:+ ".".
Proof.
  split.
  - intros He. destruct (extensionOf_parts name) as (_ & [H | [stem H]] & _).
    + left. congruence.
    + right. exists stem. rewrite He in H. exact H.
  - intros [-> | [stem ->]]; [reflexivity |].
    unfold extensionOf, Js.pop. change "." with (String "." "").
    rewrite PathFacts.split_app. simpl. rewrite last_snoc. reflexivity.
Qed.

Lemma includes_In (l : list string) (x : string) :
  Js.includes l x = true <-> In x l.
Proof.
  unfold Js.includes. rewrite existsb_exists. split.
  - intros (y & Hy & E). apply String.eqb_eq in E. subst. exact Hy.
  - intros H. exists x. split; [exact H | apply String.eqb_refl].
Qed.

Lemma extensionRejected_iff (this : FileUploader) (file : File) :
  extensionRejected this file = true <->
  (file_name file = "" \/ exists stem, file_name file = stem +:+ ".") /\
  ~ In "" (extensions (options this)).
Proof.
  rewrite extensionRejected_spec, extension_empty_iff, <- includes_In.
  destruct (Js.includes (extensions (options this)) ""); split; intros [H1 H2];
    split; auto; try discriminate. exfalso. apply H2. reflexivity.
Qed.

(** X11.  The extension that the loop body computes holds no dot; it is the
    text after the last dot of the name, and the whole name when the name
    has no dot. *)
Theorem extension_is_after_last_dot (name : string) :
  charFree "." (extensionOf name) = true /\
  (name = extensionOf name \/
   exists stem, name = stem +:+ "." +:+ extensionOf name) /\
  (charFree "." name = true -> extensionOf name = name).
Proof. exact (extensionOf_parts name). Qed.

(** X12.  The extension check rejects a file exactly when its name is empty
    or ends with a dot and the empty string is not among the configured
    extensions; no other name is ever rejected on extension grounds,
    whatever the list holds. *)
Theorem extension_check_fires_iff (this : FileUploader) (file : File) :
  extensionRejected this file = true <->
  (file_name file = "" \/ exists stem, file_name file = stem +:+ ".") /\
  ~ In "" (extensions (options this)).
Proof. exact (extensionRejected_iff this file). Qed.

(* ===================================================================== *)
(** * The characters of a URL                                             *)
(* ===================================================================== *)

Lemma allChars_app (p : ascii -> bool) (a b : string) :
  allChars p (a +:+ b) = allChars p a && allChars p b.
Proof.
  induction a as [|c a IH]; [reflexivity |].
  rewrite append_cons. simpl. rewrite IH, andb_assoc. reflexivity.
Qed.

Lemma percent_urlChar (c : ascii) : allChars urlChar (Js.percent c) = true.
Proof. destruct c as [[] [] [] [] [] [] [] []]; vm_compute; reflexivity. Qed.

Lemma encodeURI_urlChar (s : string) : allChars urlChar (Js.encodeURI s) = true.
Proof.
  induction s as [|c s IH]; [reflexivity |]. simpl. rewrite allChars_app, IH, andb_true_r.
  destruct (Js.uriUnescaped c) eqn:E; [| apply percent_urlChar].
  simpl. unfold urlChar. rewrite E. reflexivity.
Qed.

Lemma encodeURI_id (s : string) :
  allChars Js.uriUnescaped s = true -> Js.encodeURI s = s.
Proof.
  induction s as [|c s IH]; [reflexivity |]. simpl. intros H.
  apply andb_true_iff in H. destruct H as [Hc Hs]. rewrite Hc, (IH Hs). reflexivity.
Qed.

Lemma urlChar_not_backslash (c : ascii) : urlChar c = true -> Ascii.eqb c "\" = false.
Proof. intros H. apply Ascii.eqb_neq. intros ->. discriminate. Qed.

(** X13.  The [url] computed for a stored path only holds characters that
    [encodeURI] leaves alone and percent signs: never a space, a backslash
    or a byte outside ASCII. *)
Theorem url_characters (env : Env) (p : string) :
  allChars urlChar (urlOf env p) = true /\
  charFree " " (urlOf env p) = true /\
  charFree "\" (urlOf env p) = true /\
  allChars (fun c => (N_of_ascii c <? 128)%N) (urlOf env p) = true.
Proof.
  assert (H : allChars urlChar (urlOf env p) = true) by apply encodeURI_urlChar.
  split; [exact H |].
  assert (G : forall q : ascii -> bool,
             (forall c, urlChar c = true -> q c = true) ->
             allChars q (urlOf env p) = true).
  { intros q Hq. induction (urlOf env p) as [|c u IH]; [reflexivity |].
    simpl in *. apply andb_true_iff in H. destruct H as [Hc Hu].
    rewrite (Hq c Hc), (IH Hu). reflexivity. }
  repeat split; apply G; intros c Hc;
    destruct c as [[] [] [] [] [] [] [] []]; try reflexivity; discriminate Hc.
Qed.

Lemma allChars_drop (p : ascii -> bool) (n : nat) (s : string) :
  allChars p s = true -> allChars p (Js.drop n s) = true.
Proof.
  revert s. induction n as [|n IH]; intros [|c s] H; simpl; auto.
  simpl in H. apply andb_true_iff in H. destruct H as [_ Hs]. auto.
Qed.

Lemma unescaped_noBackslash (s : string) :
  allChars Js.uriUnescaped s = true -> noBackslash s = true.
Proof.
  induction s as [|c s IH]; [reflexivity |]. simpl. intros H.
  apply andb_true_iff in H. destruct H as [Hc Hs]. rewrite (IH Hs), andb_true_r.
  apply negb_true_iff. apply urlChar_not_backslash. unfold urlChar. rewrite Hc.
  reflexivity.
Qed.

(** X14.  When the stored path starts with the working directory and only
    holds characters that need no escape, the [url] is the rest of the path
    as it is, with a slash in front if it has none. *)
Theorem url_of_plain_path (env : Env) (p : string) :
  String.prefix (cwd env) p = true ->
  allChars Js.uriUnescaped p = true ->
  urlOf env p = ensureLeadingSlash (Js.drop (String.length (cwd env)) p).
Proof.
  intros Hpre Hplain.
  rewrite (urlOf_spec env p Hpre (unescaped_noBackslash p Hplain)).
  unfold urlSpec, stripPrefix. rewrite Hpre. apply encodeURI_id.
  unfold ensureLeadingSlash.
  pose proof (allChars_drop _ (String.length (cwd env)) p Hplain) as Hd.
  destruct (Js.startsWith "/" _); [exact Hd |].
  change ("/" +:+ ?u) with (String "/" u). simpl. exact Hd.
Qed.

(* ===================================================================== *)
(** * The checks on the request                                           *)
(* ===================================================================== *)

Lemma digitValue_pretty (m : N) :
  (m < 10)%N -> Js.digitValue (pretty_N_char m) = Some (Z.of_N m).
Proof.
  intros H.
  assert (m = 0 \/ m = 1 \/ m = 2 \/ m = 3 \/ m = 4 \/ m = 5 \/ m = 6 \/ m = 7
          \/ m = 8 \/ m = 9)%N as Hm by lia.
  repeat (destruct Hm as [-> | Hm]; [reflexivity |]). subst. reflexivity.
Qed.

Lemma isDigit_pretty (m : N) : isDigit (pretty_N_char m) = true.
Proof. unfold pretty_N_char. repeat case_match; reflexivity. Qed.

Lemma pretty_N_go_digits (x : N) :
  forall s, allChars isDigit s = true -> allChars isDigit (pretty_N_go x s) = true.
Proof.
  induction (N.lt_wf_0 x) as [x _ IH]. intros s Hs.
  destruct (N.eq_dec x 0%N) as [-> | Hx]; [exact Hs |].
  rewrite pretty_N_go_step by lia. apply IH.
  - apply N.div_lt; lia.
  - simpl. rewrite isDigit_pretty, Hs. reflexivity.
Qed.

Lemma digits_step (acc : option Z) (m : N) (s : string) :
  (m < 10)%N ->
  Js.digits 10 acc (String (pretty_N_char m) s)
  = Js.digits 10 (Some (default 0 acc * 10 + Z.of_N m)%Z) s.
Proof.
  intros H. cbn [Js.digits]. rewrite (digitValue_pretty m H).
  replace (Z.of_N m <? 10)%Z with true by (symmetry; apply Z.ltb_lt; lia).
  reflexivity.
Qed.

(** Reading back the digits that [toString] wrote. *)
Lemma digits_pretty_N_go (x : N) :
  (0 < x)%N ->
  forall s, exists k : nat, forall acc,
    Js.digits 10 acc (pretty_N_go x s)
    = Js.digits 10 (Some (default 0 acc * 10 ^ Z.of_nat k + Z.of_N x)%Z) s.
Proof.
  induction (N.lt_wf_0 x) as [x _ IH]. intros Hx s.
  rewrite pretty_N_go_step by exact Hx.
  assert (Hm : (x mod 10 < 10)%N) by (apply N.mod_lt; lia).
  assert (Hdm : Z.of_N x = (10 * Z.of_N (x / 10) + Z.of_N (x mod 10))%Z).
  { rewrite (N.div_mod x 10%N) at 1 by lia. lia. }
  destruct (N.eq_dec (x / 10)%N 0%N) as [E | E].
  - rewrite E, pretty_N_go_0. exists 1%nat. intros acc.
    rewrite digits_step by exact Hm. do 2 f_equal.
    change (10 ^ Z.of_nat 1)%Z with 10%Z. lia.
  - destruct (IH (x / 10)%N ltac:(apply N.div_lt; lia) ltac:(lia)
                (String (pretty_N_char (x mod 10)) s)) as [k Hk].
    exists (S k). intros acc. rewrite Hk, digits_step by exact Hm.
    do 2 f_equal. cbn [default].
    cbv [id]. rewrite Nat2Z.inj_succ, Z.pow_succ_r by lia. rewrite Hdm. ring.
Qed.

Lemma parseInt_decimal (c : ascii) (s : string) :
  allChars isDigit (String c s) = true ->
  Js.parseInt (String c s)
  = (fun n => 1 * n)%Z <$> Js.digits 10 None (String c s) /\
  Js.parseInt (String "-" (String c s))
  = (fun n => (-1) * n)%Z <$> Js.digits 10 None (String c s).
Proof.
  simpl. intros H. apply andb_true_iff in H. destruct H as [Hc Hs].
  destruct (Ascii.ascii_dec c "0") as [-> | Hc0].
  - destruct s as [|d s].
    + split; reflexivity.
    + simpl in Hs. apply andb_true_iff in Hs. destruct Hs as [Hd _].
      destruct d as [[] [] [] [] [] [] [] []]; try discriminate Hd;
        split; reflexivity.
  - destruct c as [[] [] [] [] [] [] [] []]; try discriminate Hc;
      try (exfalso; apply Hc0; reflexivity); split;
      unfold Js.parseInt; cbn [Js.trimStart Js.isWhite existsb N_of_ascii
        N_of_digits N.eqb Pos.eqb N.add N.mul Pos.add Pos.mul orb];
      try reflexivity.
Qed.

(** [parseInt] reads back the integer that [toString] wrote. *)
Lemma parseInt_toString (z : Z) : Js.parseInt (Js.toString z) = Some z.
Proof.
  assert (Hpos : forall p, exists c s,
             pretty (N.pos p) = String c s /\
             allChars isDigit (String c s) = true /\
             Js.digits 10 None (String c s) = Some (Z.pos p)).
  { intros p. unfold pretty, pretty_N.
    destruct (decide (N.pos p = 0%N)); [discriminate |].
    destruct (digits_pretty_N_go (N.pos p) ltac:(lia) "") as [k Hk].
    pose proof (pretty_N_go_digits (N.pos p) "" eq_refl) as Hd.
    specialize (Hk None). cbn [default Js.digits] in Hk.
    destruct (pretty_N_go (N.pos p) "") as [|c s] eqn:E.
    - discriminate Hk.
    - exists c, s. split; [reflexivity |]. split; [exact Hd |].
      rewrite Hk. reflexivity. }
  unfold Js.toString, pretty, pretty_Z. destruct z as [|p|p].
  - reflexivity.
  - destruct (Hpos p) as (c & s & E & Hd & Hv).
    change (Js.parseInt (pretty (N.pos p)) = Some (Z.pos p)). rewrite E.
    rewrite (proj1 (parseInt_decimal c s Hd)), Hv. reflexivity.
  - destruct (Hpos p) as (c & s & E & Hd & Hv).
    change (Js.parseInt (String "-" (pretty (N.pos p))) = Some (Z.neg p)).
    rewrite E.
    rewrite (proj2 (parseInt_decimal c s Hd)), Hv. reflexivity.
Qed.

(** X15.  When the request has a body, a content type, and a content-length
    header that is the decimal text of an integer [n], the total-size check
    rejects the request exactly when [n] exceeds [maxSizeBytes]; otherwise
    the outcome of the checks is that of the boundary check.  The limit is
    taken in the safe-integer range, where the comparison of the numbers of
    the code is the comparison of the integers. *)
Theorem total_size_check (this : FileUploader) (request : Request)
    (n : Z) (ct : string) :
  (Z.abs (maxSizeBytes (options this)) <= MAX_SAFE_INTEGER)%Z ->
  hasBody request = true ->
  contentLength request = Some (Js.toString n) ->
  contentType request = Some ct ->
  ct <> "" ->
  preconditionError this request =
    if (maxSizeBytes (options this) <? n)%Z
    then Some (Error (totalSizeMessage this (Js.toString n)))
    else if Js.falsy_opt (Js.matchBoundary ct)
         then Some (Error invalidFormMessage)
         else None.
Proof.
  intros _ Hb Hl Ht Hne. unfold preconditionError.
  rewrite Hb, Hl, Ht. cbn [negb Js.falsy_opt from_option id].
  destruct (toString_num n) as [_ Hn].
  unfold Js.falsy.
  destruct (String.eqb_spec (Js.toString n) ""); [contradiction |].
  destruct (String.eqb_spec ct ""); [contradiction |].
  rewrite parseInt_toString. reflexivity.
Qed.

Lemma prefix_drop (p s : string) :
  String.prefix p s = true -> s = p +:+ Js.drop (String.length p) s.
Proof.
  revert s. induction p as [|c p IH]; intros s H; [reflexivity |].
  destruct s as [|d s]; [discriminate H |]. cbn [String.prefix] in H.
  destruct (Ascii.ascii_dec c d) as [-> |]; [| discriminate H].
  rewrite append_cons. cbn [String.length Js.drop]. f_equal. apply IH, H.
Qed.

Lemma prefix_append (p s : string) : String.prefix p (p +:+ s) = true.
Proof.
  induction p as [|c p IH]; [destruct s; reflexivity |].
  rewrite append_cons. cbn [String.prefix].
  destruct (Ascii.ascii_dec c c); [exact IH | contradiction].
Qed.

Lemma drop_append (p s : string) : Js.drop (String.length p) (p +:+ s) = s.
Proof. induction p as [|c p IH]; [reflexivity |]. rewrite append_cons. exact IH. Qed.

Lemma matchHere_sound (s rest : string) :
  Js.matchHere s = Some rest ->
  s = "boundary=" +:+ rest /\ Js.noLineTerminator rest = true.
Proof.
  unfold Js.matchHere. destruct (String.prefix "boundary=" s) eqn:P; [| discriminate].
  destruct (Js.noLineTerminator (Js.drop 9 s)) eqn:L; [| discriminate].
  intros [= <-]. split; [exact (prefix_drop "boundary=" s P) | exact L].
Qed.

Lemma matchBoundary_sound (s rest : string) :
  Js.matchBoundary s = Some rest ->
  exists pre, s = pre +:+ "boundary=" +:+ rest /\ Js.noLineTerminator rest = true.
Proof.
  induction s as [|c s IH]; cbn [Js.matchBoundary].
  - destruct (Js.matchHere "") eqn:E; [| discriminate]. intros [= ->].
    apply matchHere_sound in E. exists "". exact E.
  - destruct (Js.matchHere (String c s)) eqn:E.
    + intros [= ->]. apply matchHere_sound in E. exists "". exact E.
    + intros H. destruct (IH H) as (pre & -> & L). exists (String c pre).
      split; [reflexivity | exact L].
Qed.

Lemma matchBoundary_complete (pre rest : string) :
  Js.noLineTerminator rest = true ->
  exists rest', Js.matchBoundary (pre +:+ "boundary=" +:+ rest) = Some rest' /\
                String.length rest <= String.length rest'.
Proof.
  intros L. induction pre as [|c pre IH].
  - exists rest. rewrite append_nil_l. split; [| lia].
    assert (E : Js.matchHere ("boundary=" +:+ rest) = Some rest).
    { unfold Js.matchHere. rewrite prefix_append.
      change 9 with (String.length "boundary="). rewrite drop_append, L.
      reflexivity. }
    destruct ("boundary=" +:+ rest); cbn [Js.matchBoundary]; rewrite E; reflexivity.
  - rewrite append_cons. cbn [Js.matchBoundary].
    destruct (Js.matchHere (String c (pre +:+ "boundary=" +:+ rest))) as [r |] eqn:E.
    + exists r. split; [reflexivity |].
      apply matchHere_sound in E. destruct E as [E _].
      apply (f_equal String.length) in E. cbn [String.length] in E.
      rewrite !length_append in E. simpl in E. lia.
    + exact IH.
Qed.

(** X16.  The boundary check lets a content type through exactly when it
    holds the text [boundary=] followed, up to its end, by at least one
    character and no line break. *)
Theorem boundary_check_passes_iff (ct : string) :
  Js.falsy_opt (Js.matchBoundary ct) = false <->
  exists pre rest,
    ct = pre +:+ "boundary=" +:+ rest /\ rest <> "" /\
    Js.noLineTerminator rest = true.
Proof.
  split.
  - destruct (Js.matchBoundary ct) as [rest |] eqn:E; [| discriminate].
    intros F. destruct (matchBoundary_sound ct rest E) as (pre & -> & L).
    exists pre, rest. repeat split; [| exact L].
    intros ->. discriminate F.
  - intros (pre & rest & -> & Hne & L).
    destruct (matchBoundary_complete pre rest L) as (r & -> & Hlen).
    cbn [Js.falsy_opt]. unfold Js.falsy.
    destruct (String.eqb_spec r ""); [| reflexivity].
    subst r. destruct rest; [contradiction | simpl in Hlen; lia].
Qed.

(* ===================================================================== *)
(** * The default configuration                                           *)
(* ===================================================================== *)

(** X17.  An uploader constructed without options accepts a file exactly
    when its name is not empty, does not end with a dot, and its size is at
    most [Number.MAX_SAFE_INTEGER]. *)
Theorem default_uploader_accepts (path : string) (file : File) :
  accepted (constructor path noOptions) file <->
  ~ (file_name file = "" \/ exists stem, file_name file = stem +:+ ".") /\
  (file_size file <= MAX_SAFE_INTEGER)%Z.
Proof.
  unfold accepted. split.
  - intros [He Hs]. split.
    + intros Hn. apply not_true_iff_false in He. apply He.
      apply extensionRejected_iff. split; [exact Hn | intros []].
    + unfold sizeRejected in Hs. apply Z.ltb_ge in Hs. exact Hs.
  - intros [Hn Hs]. split.
    + apply not_true_iff_false. intros He.
      apply extensionRejected_iff in He. destruct He as [He _]. auto.
    + unfold sizeRejected. apply Z.ltb_ge. exact Hs.
Qed.

(* ===================================================================== *)
(** * A form without files                                                *)
(* ===================================================================== *)

Lemma processEntries_no_files (env : Env) (this : FileUploader)
    (entries : list (string * FormValue)) (s : State) :
  Forall (fun kv => filesIn (snd kv) = []) entries ->
  processEntries env this entries s = (Normal tt, s).
Proof.
  induction 1 as [|[k v] rest Hv _ IH]; [reflexivity |].
  rewrite processEntries_cons. unfold bind.
  assert (E : processEntry env this (k, v) s = (Normal tt, s)).
  { destruct v as [f | items |]; simpl in Hv.
    - discriminate Hv.
    - unfold processEntry. rewrite Hv. reflexivity.
    - reflexivity. }
  rewrite E. exact IH.
Qed.

(** X18.  A well-formed request whose form holds no file (only other
    fields, or arrays without files), on an instance without recorded
    errors, stores nothing and reports nothing: the result of the instance
    is attached as it stands, and [next] is invoked twice when it
    returns. *)
Theorem request_without_files
    (env : Env) (this : FileUploader) (request : Request)
    (next : State -> Outcome) (entries : list (string * FormValue)) (s : State) :
  preconditionError this request = None ->
  formData request = Normal entries ->
  Forall (fun kv => filesIn (snd kv) = []) entries ->
  validationErrors s = [] ->
  next (logged EvNext (attached s)) = None ->
  next (logged EvNext (logged EvNext (attached s))) = None ->
  middleware env this request next s
  = (Normal tt, logged EvNext (logged EvNext (attached s))).
Proof.
  intros Hpre Hform Hall Hv Hn1 Hn2.
  assert (Htry : tryBlock env this request next s
                 = (Normal tt, logged EvNext (attached s))).
  { rewrite (tryBlock_processed env this request next entries s s Hpre Hform
               (processEntries_no_files env this entries s Hall)).
    rewrite Hv. cbn [length Nat.ltb Nat.leb]. rewrite call_eq, Hn1. reflexivity. }
  rewrite (middleware_normal env this request next s _ Htry), call_eq, Hn2.
  reflexivity.
Qed.

(* ===================================================================== *)
(** * The properties at concrete inputs                                   *)
(* ===================================================================== *)

Lemma attached_only_without_errors_witness :
  let out := middleware Scenario.env Scenario.jpgOnly (Scenario.request Cases.photo)
               Scenario.returns initialState in
  uploadedFiles initialState = false /\
  uploadedFiles (snd out) = true /\
  preconditionError Scenario.jpgOnly (Scenario.request Cases.photo) = None /\
  validationErrors initialState = [] /\
  validationErrors (snd out) = [].
Proof.
  cbv zeta. split; [reflexivity |]. split; [vm_compute; reflexivity |].
  apply (attached_only_without_errors Scenario.env Scenario.jpgOnly
           (Scenario.request Cases.photo) Scenario.returns initialState);
    vm_compute; reflexivity.
Defined.

Lemma errors_are_never_cleared_witness :
  let out := middleware Scenario.env Scenario.jpgOnly (Scenario.request Cases.photo)
               Scenario.returns Cases.withOldError in
  validationErrors Cases.withOldError <> [] /\
  errorCalls (snd out) = S (errorCalls Cases.withOldError) /\
  uploadedFiles (snd out) = uploadedFiles Cases.withOldError /\
  exists more, validationErrors (snd out) = validationErrors Cases.withOldError ++ more.
Proof.
  cbv zeta.
  assert (H : validationErrors Cases.withOldError <> []) by (simpl; discriminate).
  split; [exact H |].
  exact (errors_are_never_cleared Scenario.env Scenario.jpgOnly
           (Scenario.request Cases.photo) Scenario.returns Cases.withOldError H).
Defined.

Lemma operational_error_reaches_onError_witness :
  preconditionError Scenario.jpgOnly Cases.brokenBody = None /\
  formData Cases.brokenBody = Throw (Error "body is not form data") /\
  middleware Scenario.env Scenario.jpgOnly Cases.brokenBody Scenario.returns initialState
  = catchThenNext Scenario.jpgOnly Cases.brokenBody Scenario.returns
      (Error "body is not form data") initialState.
Proof.
  split; [reflexivity |]. split; [reflexivity |].
  apply (operational_error_reaches_onError Scenario.env Scenario.jpgOnly
           Cases.brokenBody Scenario.returns initialState initialState
           (Error "body is not form data")).
  - reflexivity.
  - left. split; reflexivity.
Defined.

Lemma downstream_error_reaches_onError_witness :
  let s1 := snd (processEntries Scenario.env Scenario.jpgOnly Cases.photo initialState) in
  processEntries Scenario.env Scenario.jpgOnly Cases.photo initialState = (Normal tt, s1) /\
  validationErrors s1 = [] /\
  middleware Scenario.env Scenario.jpgOnly (Scenario.request Cases.photo)
             Cases.throwingNext initialState
  = catchThenNext Scenario.jpgOnly (Scenario.request Cases.photo) Cases.throwingNext
      (Error "downstream failed") (logged EvNext (attached s1)).
Proof.
  cbv zeta.
  set (s1 := snd (processEntries Scenario.env Scenario.jpgOnly Cases.photo initialState)).
  assert (Hproc : processEntries Scenario.env Scenario.jpgOnly Cases.photo initialState
                  = (Normal tt, s1)) by (vm_compute; reflexivity).
  assert (Hv : validationErrors s1 = []) by (vm_compute; reflexivity).
  split; [exact Hproc |]. split; [exact Hv |].
  exact (downstream_error_reaches_onError Scenario.env Scenario.jpgOnly
           (Scenario.request Cases.photo) Cases.throwingNext Cases.photo
           initialState s1 (Error "downstream failed")
           eq_refl eq_refl Hproc Hv eq_refl).
Defined.

Lemma processFiles_accounting_witness :
  let out := processFiles Scenario.env Scenario.jpgOnly
               [Scenario.a_jpg; Scenario.big_jpg; Scenario.notes_dot] initialState in
  (exists r, out = (Normal r, snd out)) /\
  validationErrors (snd out)
  = [sizeMessage Scenario.jpgOnly Scenario.big_jpg;
     extensionMessage Scenario.jpgOnly Scenario.notes_dot] /\
  writeCount (snd out) = 1.
Proof.
  cbv zeta.
  set (out := processFiles Scenario.env Scenario.jpgOnly
                [Scenario.a_jpg; Scenario.big_jpg; Scenario.notes_dot] initialState).
  assert (H : out = (Normal (match fst out with
                             | Normal r => r
                             | Throw _ => emptyProcessedFile
                             end), snd out)) by (vm_compute; reflexivity).
  split; [eexists; exact H |].
  exact (processFiles_accounting Scenario.env Scenario.jpgOnly
           [Scenario.a_jpg; Scenario.big_jpg; Scenario.notes_dot]
           initialState (snd out) _ H).
Defined.

Lemma all_rejected_leaves_no_trace_witness :
  Forall (fun f => acceptedb Scenario.jpgOnly f = false)
         [Scenario.notes_dot; Scenario.big_jpg] /\
  processFiles Scenario.env Scenario.jpgOnly [Scenario.notes_dot; Scenario.big_jpg]
               initialState
  = (Normal (mkProcessedFile "a.jpg" 5000 "image/jpeg" None "" ""),
     mkState 0 0 []
       [extensionMessage Scenario.jpgOnly Scenario.notes_dot;
        sizeMessage Scenario.jpgOnly Scenario.big_jpg]
       ∅ false).
Proof.
  assert (H : Forall (fun f => acceptedb Scenario.jpgOnly f = false)
                     [Scenario.notes_dot; Scenario.big_jpg])
    by (repeat constructor).
  split; [exact H |].
  exact (all_rejected_leaves_no_trace Scenario.env Scenario.jpgOnly
           [Scenario.notes_dot; Scenario.big_jpg] initialState H).
Defined.

Lemma undated_same_name_same_path_witness :
  let run1 := processFile Scenario.env Cases.undated emptyProcessedFile
                Scenario.a_jpg initialState in
  let run2 := processFile Scenario.env Cases.undated emptyProcessedFile
                (mkFile "a.jpg" 7 "text/plain" []) (snd run1) in
  (exists r1, run1 = (Normal r1, snd run1)) /\
  (exists r2, run2 = (Normal r2, snd run2)) /\
  forall r1 r2, run1 = (Normal r1, snd run1) -> run2 = (Normal r2, snd run2) ->
    uri r1 = uri r2 /\ uri r1 = "/app/uploads/a.jpg".
Proof.
  cbv zeta.
  set (run1 := processFile Scenario.env Cases.undated emptyProcessedFile
                 Scenario.a_jpg initialState).
  set (run2 := processFile Scenario.env Cases.undated emptyProcessedFile
                 (mkFile "a.jpg" 7 "text/plain" []) (snd run1)).
  split; [eexists; vm_compute; reflexivity |].
  split; [eexists; vm_compute; reflexivity |].
  intros r1 r2 H1 H2.
  destruct (undated_same_name_same_path Scenario.env Cases.undated
              emptyProcessedFile emptyProcessedFile r1 r2
              Scenario.a_jpg (mkFile "a.jpg" 7 "text/plain" [])
              initialState (snd run1) (snd run1) (snd run2)
              eq_refl eq_refl (conj eq_refl eq_refl) (conj eq_refl eq_refl)
              eq_refl H1 H2) as (E & P & _).
  split; [exact E | exact P].
Defined.

Lemma dated_paths_are_distinct_witness :
  let run1 := processFile Scenario.env Scenario.jpgOnly emptyProcessedFile
                Scenario.a_jpg initialState in
  let run2 := processFile Scenario.env Scenario.jpgOnly emptyProcessedFile
                Scenario.a_jpg (snd run1) in
  (exists r1, run1 = (Normal r1, snd run1)) /\
  (exists r2, run2 = (Normal r2, snd run2)) /\
  forall r1 r2, run1 = (Normal r1, snd run1) -> run2 = (Normal r2, snd run2) ->
    uri r1 <> uri r2.
Proof.
  cbv zeta.
  set (run1 := processFile Scenario.env Scenario.jpgOnly emptyProcessedFile
                 Scenario.a_jpg initialState).
  set (run2 := processFile Scenario.env Scenario.jpgOnly emptyProcessedFile
                 Scenario.a_jpg (snd run1)).
  split; [eexists; vm_compute; reflexivity |].
  split; [eexists; vm_compute; reflexivity |].
  intros r1 r2 H1 H2.
  apply (dated_paths_are_distinct Scenario.env Scenario.jpgOnly
           emptyProcessedFile emptyProcessedFile r1 r2
           Scenario.a_jpg Scenario.a_jpg
           initialState (snd run1) (snd run1) (snd run2)
           eq_refl eq_refl (conj eq_refl eq_refl) (conj eq_refl eq_refl)
           eq_refl eq_refl eq_refl eq_refl);
    [vm_compute; discriminate | exact H1 | exact H2].
Defined.

Lemma url_of_plain_path_witness :
  String.prefix (cwd Scenario.env) "/app/uploads/a.jpg" = true /\
  allChars Js.uriUnescaped "/app/uploads/a.jpg" = true /\
  urlOf Scenario.env "/app/uploads/a.jpg" = "/uploads/a.jpg".
Proof.
  split; [reflexivity |]. split; [reflexivity |].
  exact (url_of_plain_path Scenario.env "/app/uploads/a.jpg" eq_refl eq_refl).
Defined.

Lemma total_size_check_witness :
  let this := constructor "uploads"
                (mkPartial None (Some 500%Z) None None None None None None) in
  (Z.abs (maxSizeBytes (options this)) <= MAX_SAFE_INTEGER)%Z /\
  preconditionError this (Scenario.request Cases.photo)
  = Some (Error "Total upload size exceeded. Uploaded: 600. Allowed maximum: 500").
Proof.
  cbv zeta.
  assert (H : "multipart/form-data; boundary=----x" <> "") by discriminate.
  assert (L : (Z.abs 500 <= MAX_SAFE_INTEGER)%Z) by (vm_compute; discriminate).
  split; [exact L |].
  exact (total_size_check
           (constructor "uploads"
              (mkPartial None (Some 500%Z) None None None None None None))
           (Scenario.request Cases.photo) 600%Z
           "multipart/form-data; boundary=----x" L eq_refl eq_refl eq_refl H).
Defined.

Lemma request_without_files_witness :
  Forall (fun kv => filesIn (snd kv) = []) Cases.textOnly /\
  middleware Scenario.env Scenario.jpgOnly (Scenario.request Cases.textOnly)
             Scenario.returns initialState
  = (Normal tt, logged EvNext (logged EvNext (attached initialState))).
Proof.
  assert (H : Forall (fun kv => filesIn (snd kv) = []) Cases.textOnly)
    by (repeat constructor).
  split; [exact H |].
  exact (request_without_files Scenario.env Scenario.jpgOnly
           (Scenario.request Cases.textOnly) Scenario.returns Cases.textOnly
           initialState eq_refl eq_refl H eq_refl eq_refl eq_refl).
Defined.

(* ===================================================================== *)
(** * The preconditions                                                   *)
(* ===================================================================== *)

Lemma boundaryText_spec (ct : string) :
  Js.falsy_opt (Js.matchBoundary ct) = false <-> boundaryText ct.
Proof.
  unfold boundaryText. split.
  - destruct (Js.matchBoundary ct) as [rest |] eqn:E; [| discriminate].
    intros F. destruct (matchBoundary_sound ct rest E) as (pre & -> & L).
    exists pre, rest. repeat split; [| exact L].
    intros ->. discriminate F.
  - intros (pre & rest & -> & Hne & L).
    destruct (matchBoundary_complete pre rest L) as (r & -> & Hlen).
    cbn [Js.falsy_opt]. unfold Js.falsy.
    destruct (String.eqb_spec r ""); [| reflexivity].
    subst r. destruct rest; [contradiction | simpl in Hlen; lia].
Qed.

Lemma digitValue_digit (c : ascii) :
  isDigit c = true ->
  Js.digitValue c = Some (Z.of_N (N_of_ascii c) - 48)%Z /\
  (Z.of_N (N_of_ascii c) - 48 <? 10)%Z = true.
Proof.
  destruct c as [[] [] [] [] [] [] [] []]; intros H; try discriminate H;
    split; reflexivity.
Qed.

Lemma digits_decimal (s : string) :
  allChars isDigit s = true ->
  forall acc, Js.digits 10 (Some acc) s = Some (decimalFrom acc s).
Proof.
  induction s as [|c s IH]; intros H acc; [reflexivity |].
  simpl in H. apply andb_true_iff in H. destruct H as [Hc Hs].
  destruct (digitValue_digit c Hc) as [Hv Hlt].
  cbn [Js.digits decimalFrom]. rewrite Hv, Hlt. cbn [from_option id].
  rewrite (IH Hs). do 2 f_equal. cbv [id]. lia.
Qed.

(** [parseInt] reads a declared content length as the number it writes. *)
Lemma parseInt_isDecimal (cl : string) :
  isDecimal cl = true -> Js.parseInt cl = Some (decimalValue cl).
Proof.
  unfold isDecimal. intros H. apply andb_true_iff in H. destruct H as [Hne Hd].
  destruct cl as [|c s]; [discriminate Hne |].
  rewrite (proj1 (parseInt_decimal c s Hd)).
  simpl in Hd. apply andb_true_iff in Hd. destruct Hd as [Hc Hs].
  destruct (digitValue_digit c Hc) as [Hv Hlt].
  cbn [Js.digits]. rewrite Hv, Hlt. cbn [from_option id].
  rewrite (digits_decimal s Hs). unfold decimalValue. cbn [decimalFrom].
  simpl. f_equal.
  replace (10 * 0 + (Z.of_N (N_of_ascii c) - 48))%Z
    with (0 * 10 + (Z.of_N (N_of_ascii c) - 48))%Z by lia.
  destruct (decimalFrom _ s); reflexivity.
Qed.

Lemma preconditionFails_error (this : FileUploader) (request : Request) :
  preconditionFails this request ->
  exists e, preconditionError this request = Some e.
Proof.
  unfold preconditionFails, preconditionError. intros H.
  destruct (hasBody request); cbn [negb]; [| eauto].
  destruct (Js.falsy_opt (contentLength request)) eqn:Hcl; [eauto |].
  destruct (Js.falsy_opt (contentType request)) eqn:Hct; [eauto |].
  destruct H as [H | [H | [H | [H | [H | [H | H]]]]]].
  - discriminate H.
  - rewrite H in Hcl. discriminate Hcl.
  - rewrite H in Hcl. discriminate Hcl.
  - rewrite H in Hct. discriminate Hct.
  - rewrite H in Hct. discriminate Hct.
  - destruct H as (ct & Hc & Hno). rewrite Hc. cbn [from_option id].
    destruct (Js.gt _ _); [eauto |].
    destruct (Js.falsy_opt (Js.matchBoundary ct)) eqn:F; [eauto |].
    exfalso. apply Hno. apply boundaryText_spec. exact F.
  - destruct H as (cl & Hc & Hd & _ & Hlt). rewrite Hc. cbn [from_option id].
    rewrite (parseInt_isDecimal cl Hd). cbn [Js.gt].
    apply Z.ltb_lt in Hlt. rewrite Hlt. eauto.
Qed.

(** C5 (amended).  A request without a body, without a content-length or a
    content-type header (or with an empty one), with a content type that
    lacks the boundary text, or with a declared content length above
    [maxSizeBytes], makes the [try] block throw before [formData()] is
    read: the middleware is the [catch] block on that error followed by the
    final [next()], run from the very state it was entered in.  When it
    ends, [onError] has been invoked once, on that error; the trace has
    gained that invocation and at most one invocation of the continuation,
    so no file has been read or written; no identifier and no date has been
    drawn; the error list, the result mapping and the context are as they
    were. *)
Theorem C5_precondition_failure_is_fatal
    (env : Env) (this : FileUploader) (request : Request)
    (next : State -> Outcome) (s : State) :
  preconditionFails this request ->
  let out := middleware env this request next s in
  exists e,
    preconditionError this request = Some e /\
    out = catchThenNext this request next e s /\
    (trace (snd out) = trace s ++ [EvOnError e] \/
     trace (snd out) = trace s ++ [EvOnError e; EvNext]) /\
    errorCalls (snd out) = S (errorCalls s) /\
    writeCount (snd out) = writeCount s /\
    uuidsUsed (snd out) = uuidsUsed s /\
    clockReads (snd out) = clockReads s /\
    validationErrors (snd out) = validationErrors s /\
    result (snd out) = result s /\
    uploadedFiles (snd out) = uploadedFiles s.
Proof.
  intros H out. destruct (preconditionFails_error this request H) as [e He].
  exists e. split; [exact He |].
  assert (Hrun : out = catchThenNext this request next e s).
  { apply middleware_throw. unfold tryBlock. rewrite He. reflexivity. }
  split; [exact Hrun |]. rewrite Hrun. unfold catchThenNext.
  destruct (onError (options this) request e (logged (EvOnError e) s)).
  - cbn [snd]. repeat split; auto.
    + apply errorCalls_logged_onError.
    + unfold writeCount. simpl. rewrite List.filter_app, length_app. simpl. lia.
  - rewrite call_eq.
    assert (Hw : writeCount (logged EvNext (logged (EvOnError e) s)) = writeCount s).
    { unfold writeCount. simpl. rewrite !List.filter_app, !length_app. simpl. lia. }
    destruct (next (logged EvNext (logged (EvOnError e) s))); cbn [snd];
      (split; [right; simpl; rewrite <- app_assoc; reflexivity |]);
      (split; [rewrite errorCalls_logged_next; apply errorCalls_logged_onError |]);
      (split; [exact Hw |]); repeat split; reflexivity.
Qed.

(** C5, as stated, fails.  The content type of a URL-encoded form with the
    parameter [xboundary] has no boundary parameter, but it holds the text
    that the check looks for: no error is raised, [onError] is not invoked,
    the fields of the form are processed and the result is attached. *)
Lemma C5_boundary_text_is_enough :
  let out := middleware Scenario.env Scenario.jpgOnly Cases.urlencoded
               Scenario.returns initialState in
  contentType Cases.urlencoded
    = Some "application/x-www-form-urlencoded; xboundary=1" /\
  parameters "application/x-www-form-urlencoded; xboundary=1" = [("xboundary", "1")] /\
  boundaryParameter "application/x-www-form-urlencoded; xboundary=1" = None /\
  preconditionError Scenario.jpgOnly Cases.urlencoded = None /\
  fst out = Normal tt /\
  trace (snd out) = [EvNext; EvNext] /\
  errorCalls (snd out) = 0 /\
  uploadedFiles (snd out) = true.
Proof. cbv zeta. repeat split; vm_compute; reflexivity. Qed.

Lemma C5_witness :
  let out := middleware Scenario.env Scenario.jpgOnly Scenario.noContentLength
               Scenario.returns initialState in
  preconditionFails Scenario.jpgOnly Scenario.noContentLength /\
  out = catchThenNext Scenario.jpgOnly Scenario.noContentLength Scenario.returns
          (Error "Content length is 0") initialState /\
  errorCalls (snd out) = 1 /\
  writeCount (snd out) = 0 /\
  validationErrors (snd out) = [].
Proof.
  cbv zeta.
  assert (H : preconditionFails Scenario.jpgOnly Scenario.noContentLength)
    by (right; left; reflexivity).
  split; [exact H |].
  destruct (C5_precondition_failure_is_fatal Scenario.env Scenario.jpgOnly
              Scenario.noContentLength Scenario.returns initialState H)
    as (e & He & Hm & _ & Hc & Hw & _ & _ & Hv & _).
  assert (E : e = Error "Content length is 0")
    by (vm_compute in He; congruence).
  rewrite E in Hm. split; [exact Hm |]. split; [exact Hc |].
  split; [exact Hw | exact Hv].
Defined.

(* ===================================================================== *)
(** * A field sent more than once                                         *)
(* ===================================================================== *)

(** C6.  A form yields one file per entry, so a field that carries several
    files comes as several entries with the same name.  After the entries
    have been processed, the result mapping holds one record for the field:
    the one that processing the last of its files, alone and from an empty
    record, returns.  Its [filename], [size] and [type] are those of that
    file.  When that file is accepted, [contents] are its bytes (or [null]
    when nothing is read), [uri] is the path its bytes were written to and
    [url] is derived from that path; when it is rejected, [contents] is
    [null] and [uri] and [url] are empty.  Nothing of an earlier file of the
    field is left. *)
Theorem C6_last_file_wins
    (env : Env) (this : FileUploader)
    (before after : list (string * FormValue)) (key : string)
    (last : File) (s s' : State) :
  processEntries env this (before ++ (key, ValFile last) :: after) s = (Normal tt, s') ->
  (forall k v, In (k, v) after -> k = key -> filesIn v = []) ->
  exists s1 s2 pf,
    processEntries env this before s = (Normal tt, s1) /\
    processFiles env this [last] s1 = (Normal pf, s2) /\
    result s' !! key = Some pf /\
    filename pf = file_name last /\
    size pf = file_size last /\
    type pf = file_type last /\
    (accepted this last ->
       contents pf =
         (if readFile (options this) then Some (file_bytes last) else None) /\
       url pf = (if saveFile (options this) then urlOf env (uri pf) else "") /\
       In (EvWriteFile (uri pf) (file_bytes last)) (trace s')) /\
    (~ accepted this last ->
       contents pf = None /\ uri pf = "" /\ url pf = "").
Proof.
  intros Hrun Hafter.
  destruct (processEntries_app env this before _ s s' Hrun) as (s0 & Hbefore & Hrest).
  rewrite processEntries_cons in Hrest. unfold bind in Hrest.
  destruct (processEntry env this (key, ValFile last) s0) as [[[]|e] s1] eqn:Hentry;
    [| discriminate].
  pose proof (processEntries_other env this key after Hafter _ _ _ Hrest) as Hkeep.
  pose proof (growing_processEntries env this after _ _ _ Hrest) as Hgrow.
  rewrite processEntry_filesIn in Hentry. cbn [filesIn] in Hentry.
  unfold bind in Hentry.
  destruct (processFiles env this [last] s0) as [[pf|e] s2] eqn:Hloop;
    [| discriminate].
  inversion Hentry; subst s1. clear Hentry.
  assert (Hlast : processFile env this emptyProcessedFile last s0 = (Normal pf, s2)).
  { unfold processFiles in Hloop. cbn [processLoop] in Hloop. unfold bind in Hloop.
    destruct (processFile env this emptyProcessedFile last s0) as [[pf'|e] s3];
      [| discriminate].
    inversion Hloop; reflexivity. }
  destruct (processFile_fields env this _ _ _ _ _ Hlast) as (F1 & F2 & F3 & _).
  exists s0, s2, pf.
  split; [exact Hbefore |]. split; [exact Hloop |].
  split; [rewrite Hkeep; simpl; apply lookup_insert_eq |].
  split; [exact F1 |]. split; [exact F2 |]. split; [exact F3 |]. split.
  - intros Hacc. destruct (saveFile (options this)) eqn:Hsave.
    + destruct (processFile_saved env this _ _ _ _ _ Hacc Hsave Hlast)
        as (_ & U & _ & _ & _ & C & W).
      split; [rewrite C; destruct (readFile (options this)); reflexivity |].
      split; [exact U |]. eapply grows_In; [exact Hgrow | exact W].
    + destruct (processFile_temp env this _ _ _ _ _ Hacc Hsave Hlast)
        as (_ & U & _ & _ & _ & C & W).
      split; [rewrite C; destruct (readFile (options this)); reflexivity |].
      split; [exact U |]. eapply grows_In; [exact Hgrow | exact W].
  - intros Hrej.
    assert (Hb : acceptedb this last = false).
    { destruct (acceptedb this last) eqn:B; [| reflexivity].
      exfalso. apply Hrej. apply acceptedb_spec. exact B. }
    destruct (processFile_rejected env this emptyProcessedFile last s0 Hb)
      as (msg & _ & Heq).
    rewrite Heq in Hlast. inversion Hlast. repeat split; reflexivity.
Qed.

Lemma C6_witness :
  let s' := snd (processEntries Scenario.env Scenario.jpgOnly Cases.repeatedField
                   initialState) in
  processEntries Scenario.env Scenario.jpgOnly Cases.repeatedField initialState
    = (Normal tt, s') /\
  ~ accepted Scenario.jpgOnly Cases.second_doc /\
  exists pf,
    result s' !! "docs" = Some pf /\
    filename pf = "b.jpg" /\ size pf = 5000%Z /\ type pf = "image/png" /\
    contents pf = None /\ uri pf = "" /\ url pf = "".
Proof.
  cbv zeta.
  set (s' := snd (processEntries Scenario.env Scenario.jpgOnly Cases.repeatedField
                    initialState)).
  assert (Hrun : processEntries Scenario.env Scenario.jpgOnly
                   ([("docs", ValFile Cases.first_doc)]
                      ++ ("docs", ValFile Cases.second_doc) :: [("note", ValOther)])
                   initialState = (Normal tt, s'))
    by (vm_compute; reflexivity).
  assert (Hrej : ~ accepted Scenario.jpgOnly Cases.second_doc)
    by (intros [_ H]; vm_compute in H; discriminate H).
  split; [exact Hrun |]. split; [exact Hrej |].
  destruct (C6_last_file_wins Scenario.env Scenario.jpgOnly
              [("docs", ValFile Cases.first_doc)] [("note", ValOther)]
              "docs" Cases.second_doc initialState s' Hrun)
    as (s1 & s2 & pf & _ & _ & Hl & Hf & Hs & Ht & _ & Hno).
  - intros k v [E | []] Hk. inversion E; subst. discriminate.
  - exists pf. destruct (Hno Hrej) as (Hc & Hu & Hw).
    repeat split; assumption.
Defined.

(* ===================================================================== *)
(** * The continuation after a successful upload                          *)
(* ===================================================================== *)

(** C10, as stated, fails.  The upload succeeds: the preconditions hold and
    the error list is empty.  The downstream middleware throws, and
    [onError], called on its error, throws too: the continuation has been
    invoked once. *)
Lemma C10_next_once_when_onError_throws :
  let request := Scenario.request Cases.photo in
  let s1 := snd (processEntries Scenario.env Scenario.throwingOnError Cases.photo
                   initialState) in
  let out := middleware Scenario.env Scenario.throwingOnError request
               Cases.throwingNext initialState in
  preconditionError Scenario.throwingOnError request = None /\
  processEntries Scenario.env Scenario.throwingOnError Cases.photo initialState
    = (Normal tt, s1) /\
  validationErrors s1 = [] /\
  fst out = Throw (Error "handler failed") /\
  uploadedFiles (snd out) = true /\
  nextCalls (snd out) = 1.
Proof. cbv zeta. repeat split; vm_compute; reflexivity. Qed.

Lemma C10_witness :
  let request := Scenario.request Cases.photo in
  let s1 := snd (processEntries Scenario.env Scenario.jpgOnly Cases.photo initialState) in
  let out := middleware Scenario.env Scenario.jpgOnly request Cases.oakNext
               initialState in
  preconditionError Scenario.jpgOnly request = None /\
  formData request = Normal Cases.photo /\
  processEntries Scenario.env Scenario.jpgOnly Cases.photo initialState = (Normal tt, s1) /\
  validationErrors s1 = [] /\
  Cases.oakNext (logged EvNext (attached s1)) = None /\
  out = (Throw (Error "next() called multiple times"),
         logged EvNext (logged EvNext (attached s1))) /\
  nextCalls (snd out) = 2 /\
  uploadedFiles (snd out) = true.
Proof.
  cbv zeta.
  set (s1 := snd (processEntries Scenario.env Scenario.jpgOnly Cases.photo initialState)).
  assert (Hproc : processEntries Scenario.env Scenario.jpgOnly Cases.photo initialState
                  = (Normal tt, s1)) by (vm_compute; reflexivity).
  assert (Hempty : validationErrors s1 = []) by (vm_compute; reflexivity).
  assert (Hfirst : Cases.oakNext (logged EvNext (attached s1)) = None)
    by (vm_compute; reflexivity).
  split; [reflexivity |]. split; [reflexivity |]. split; [exact Hproc |].
  split; [exact Hempty |]. split; [exact Hfirst |].
  destruct (C10_next_invoked_twice_on_success Scenario.env Scenario.jpgOnly
              (Scenario.request Cases.photo) Cases.oakNext Cases.photo
              initialState s1 eq_refl eq_refl Hproc Hempty)
    as (Hu & Hret & _).
  destruct (Hret Hfirst) as (Hout & _ & Hn).
  split; [rewrite Hout; vm_compute; reflexivity |].
  split; [exact Hn | exact Hu].
Defined.
